(** * EGL314 photo booth: the upload subsystem and the file naming of
    [EGL314proj.py], embedded in Rocq.

    The program is a thin layer over external libraries (pydrive2, cv2, PIL,
    rembg, tkinter).  Those are not part of the program: they are taken as an
    interface [Env] over an opaque world [W] (remote service, credential
    store, local file system, camera).  Every call into that interface either
    returns or raises, and changes the world as it likes.  The program itself
    (the classes [DriveManager], [AsyncUploader] and [PhotoBoothPython]) is
    translated statement by statement into a state-and-exception monad, and
    every external call it issues is recorded in a trace.

    Conventions of the model:
    - an exception is an instance of Python's [Exception]; [print] and plain
      attribute assignments do not raise;
    - the two threads interleave at the level of whole method calls of the UI
      thread and of the steps of the worker loop ([get], [_upload_file],
      [task_done]); [queue.Queue] is a list of items with its count of
      unfinished tasks;
    - waiting (the timeouts of [get] and [join]) shows in the trace as an
      event with the timeout the source passes, not as elapsed time;
    - paths follow POSIX; Tk geometry calls and attributes that are written
      but never read are left out. *)

From Stdlib Require Import List String Ascii Bool Arith ZArith Lia.
From Stdlib Require Import Decimal DecimalNat DecimalString.
Import ListNotations.
Open Scope string_scope.
Set Warnings "-register-all".

(** ** Python values, exceptions, results *)

Inductive pyval : Type :=
| VNone
| VStr (s : string)
| VList (l : list pyval)
| VDict (d : list (string * pyval)).

Definition pydict := list (string * pyval).

(** [exn] stands for the instances of Python's [Exception], the class the
    program's [except Exception] clauses catch. *)
Inductive exn : Type := Exception (cls : string) (msg : string).

Definition str_exn (e : exn) : string :=
  match e with Exception _ msg => msg end.

Definition KeyError (k : string) : exn := Exception "KeyError" ("'" ++ k ++ "'").
Definition ValueError (msg : string) : exn := Exception "ValueError" msg.

Inductive res (A : Type) : Type :=
| Ok (a : A)
| Raise (e : exn).
Arguments Ok {A} a.
Arguments Raise {A} e.

Definition is_Ok {A} (r : res A) : bool :=
  match r with Ok _ => true | Raise _ => false end.

Definition raised {A} (r : res A) : option exn :=
  match r with Ok _ => None | Raise e => Some e end.

Fixpoint py_str (v : pyval) : string :=
  match v with
  | VNone => "None"
  | VStr s => s
  | VList l => "[" ++ concat ", " (map py_str l) ++ "]"
  | VDict d =>
      "{" ++ concat ", "
        (map (fun kv => match kv with (k, x) => "'" ++ k ++ "': " ++ py_str x end) d)
      ++ "}"
  end.

Fixpoint dict_get (d : pydict) (k : string) : option pyval :=
  match d with
  | [] => None
  | (k', v) :: rest => if String.eqb k' k then Some v else dict_get rest k
  end.

(** ** os.path (POSIX flavour) *)

Fixpoint after_last_slash (s : string) : option string :=
  match s with
  | EmptyString => None
  | String c rest =>
      match after_last_slash rest with
      | Some b => Some b
      | None => if Ascii.eqb c "/" then Some rest else None
      end
  end.

Definition basename (p : string) : string :=
  match after_last_slash p with Some b => b | None => p end.

Fixpoint ends_with_slash (s : string) : bool :=
  match s with
  | EmptyString => false
  | String c EmptyString => Ascii.eqb c "/"
  | String _ rest => ends_with_slash rest
  end.

Definition path_join (a b : string) : string :=
  match b with
  | String "/" _ => b
  | _ => if orb (String.eqb a "") (ends_with_slash a) then a ++ b else a ++ "/" ++ b
  end.

(** Python's [str(n)] for a non-negative [int]. *)
Definition str_int (n : nat) : string := NilZero.string_of_uint (Nat.to_uint n).

(** ** The state-and-exception monad *)

Definition M (S A : Type) : Type := S -> S * res A.

Definition ret {S A} (a : A) : M S A := fun s => (s, Ok a).

Definition bind {S A B} (m : M S A) (k : A -> M S B) : M S B :=
  fun s => match m s with
           | (s', Ok a) => k a s'
           | (s', Raise e) => (s', Raise e)
           end.

Definition raise {S A} (e : exn) : M S A := fun s => (s, Raise e).

(** [try: m except Exception as e: h e] *)
Definition try_except {S A} (m : M S A) (h : exn -> M S A) : M S A :=
  fun s => match m s with
           | (s', Ok a) => (s', Ok a)
           | (s', Raise e) => h e s'
           end.

Declare Scope py_scope.
Delimit Scope py_scope with py.
Notation "x <- m ;; k" := (bind m (fun x => k))
  (at level 61, m at next level, right associativity) : py_scope.
Notation "m ;; k" := (bind m (fun _ => k))
  (at level 61, right associativity) : py_scope.
Open Scope py_scope.

(** ** External calls and the trace *)

(** A [GoogleDrive] handle and a Drive file object (a dict of metadata). *)
Inductive Drive : Type := GoogleDrive (id : nat).
Definition DriveFile := pydict.

(** An image object (PIL), written as the expression that produced it: the
    pixels are the libraries' business, the provenance is the program's. *)
Inductive image : Type :=
| Opened (path : string)
| RGBA (i : image)
| Resized (i : image)
| NoBg (i : image)
| Composite (background foreground : image).

Inductive call : Type :=
| C_GoogleAuth
| C_LoadCredentialsFile (f : string)
| C_LocalWebserverAuth
| C_Refresh
| C_Authorize
| C_SaveCredentialsFile (f : string)
| C_GoogleDrive
| C_ListFile (param : pydict)
| C_CreateFile (metadata : pydict)
| C_SetContentFile (path : string)
| C_Upload (file : DriveFile)
| C_InsertPermission (perm : pydict)
| C_cap_read
| C_imwrite (fname : string)
| C_Image_open (path : string)
| C_convert_RGBA (img : image)
| C_resize (img : image)
| C_remove (img : image)
| C_alpha_composite (background foreground : image)
| C_makedirs (dir : string)
| C_save (img : image) (path : string)
| C_display_image (img : image)
| C_thumbnail_button (bg_path : string)
| C_display_qr_code (url : pyval).

Inductive event : Type :=
| EvCall (c : call) (exc : option exn)
| EvExists (path : string) (found : bool)
| EvPut (item : option string)
| EvGet (item : option string)
| EvEmpty (timeout : nat)
| EvUploadFile (file_path : string)
| EvTaskDone
| EvJoin (timeout : nat).

(** The interface of the external collaborators over a world [W]. *)
Class Env (W : Type) : Type := {
  os_path_exists : string -> W -> bool;
  (* pydrive2.auth.GoogleAuth; the auth object lives in the world *)
  sdk_GoogleAuth : W -> W * res unit;
  sdk_LoadCredentialsFile : string -> W -> W * res unit;
  gauth_credentials_is_None : W -> bool;
  gauth_access_token_expired : W -> bool;
  sdk_LocalWebserverAuth : W -> W * res unit;
  sdk_Refresh : W -> W * res unit;
  sdk_Authorize : W -> W * res unit;
  sdk_SaveCredentialsFile : string -> W -> W * res unit;
  (* pydrive2.drive.GoogleDrive and pydrive2.files.GoogleDriveFile *)
  sdk_GoogleDrive : W -> W * res Drive;
  sdk_ListFile_GetList : Drive -> pydict -> W -> W * res (list DriveFile);
  sdk_CreateFile : Drive -> pydict -> W -> W * res DriveFile;
  sdk_SetContentFile : string -> DriveFile -> W -> W * res DriveFile;
  sdk_Upload : DriveFile -> W -> W * res DriveFile;
  sdk_InsertPermission : pydict -> DriveFile -> W -> W * res DriveFile;
  (* cv2, PIL, rembg, os, tkinter, qrcode: each returns or raises; the
     program ignores the value cv2.imwrite returns *)
  cap_read : W -> W * bool;
  cv2_imwrite : string -> W -> W * res unit;
  Image_open : string -> W -> W * res unit;
  Image_convert_RGBA : image -> W -> W * res unit;
  Image_resize : image -> W -> W * res unit;
  rembg_remove : image -> W -> W * res unit;
  Image_alpha_composite : image -> image -> W -> W * res unit;
  os_makedirs : string -> W -> W * res unit;
  Image_save : image -> string -> W -> W * res unit;
  tk_display_image : image -> W -> W * res unit;
  tk_thumbnail_button : string -> W -> W * res unit;
  tk_display_qr_code : pyval -> W -> W * res unit;
  (* sys._MEIPASS when frozen, else os.path.abspath(".") *)
  base_path : W -> string
}.

Section Model.
Context {W : Type} {E : Env W}.

(** ** Process state: the world, the [DriveManager] singleton, stdout, trace *)

Record State : Type := mkState {
  world : W;
  _drive : option Drive;
  _authenticated : bool;
  stdout : list string;
  trace : list event
}.

Definition set_world (w : W) (st : State) : State :=
  mkState w (_drive st) (_authenticated st) (stdout st) (trace st).
Definition set__drive (d : option Drive) (st : State) : State :=
  mkState (world st) d (_authenticated st) (stdout st) (trace st).
Definition set__authenticated (b : bool) (st : State) : State :=
  mkState (world st) (_drive st) b (stdout st) (trace st).
Definition add_stdout (line : string) (st : State) : State :=
  mkState (world st) (_drive st) (_authenticated st) (stdout st ++ [line]) (trace st).
Definition add_event (e : event) (st : State) : State :=
  mkState (world st) (_drive st) (_authenticated st) (stdout st) (trace st ++ [e]).

Definition print (line : string) : M State unit :=
  fun st => (add_stdout line st, Ok tt).

Definition assign_drive (d : option Drive) : M State unit :=
  fun st => (set__drive d st, Ok tt).
Definition assign_authenticated (b : bool) : M State unit :=
  fun st => (set__authenticated b st, Ok tt).

(** An external call: the world moves, the call and its outcome are traced. *)
Definition ext {A} (c : call) (f : W -> W * res A) : M State A :=
  fun st => match f (world st) with
            | (w', r) => (add_event (EvCall c (raised r)) (set_world w' st), r)
            end.

Definition read {A} (f : W -> A) : M State A :=
  fun st => (st, Ok (f (world st))).

Definition path_exists (p : string) : M State bool :=
  fun st => let b := os_path_exists p (world st) in
            (add_event (EvExists p b) st, Ok b).

(** [d[k]] on a dict. *)
Definition getitem {S} (d : pydict) (k : string) : M S pyval :=
  match dict_get d k with
  | Some v => ret v
  | None => raise (KeyError k)
  end.

(** ** class DriveManager *)

Definition _initialize_drive : M State unit :=
  try_except
    (ext C_GoogleAuth sdk_GoogleAuth ;;
     try_except
       (found <- path_exists "mycreds.txt" ;;
        if found then
          ext (C_LoadCredentialsFile "mycreds.txt") (sdk_LoadCredentialsFile "mycreds.txt") ;;
          print "thing has been loaded"
        else
          print "[!] mycreds.txt not found")
       (fun e => print ("[!] Failed to load credentials: " ++ str_exn e)) ;;
     no_credentials <- read gauth_credentials_is_None ;;
     (if no_credentials then
        print "[i] No credentials found, starting authentication..." ;;
        ext C_LocalWebserverAuth sdk_LocalWebserverAuth
      else
        expired <- read gauth_access_token_expired ;;
        if expired then
          print "[i] Token expired, refreshing..." ;;
          ext C_Refresh sdk_Refresh
        else
          ext C_Authorize sdk_Authorize) ;;
     ext (C_SaveCredentialsFile "mycreds.txt") (sdk_SaveCredentialsFile "mycreds.txt") ;;
     drive <- ext C_GoogleDrive sdk_GoogleDrive ;;
     assign_drive (Some drive) ;;
     assign_authenticated true ;;
     print "[✓] Google Drive connection established")
    (fun e =>
       print ("[!] Failed to initialize Google Drive: " ++ str_exn e) ;;
       assign_drive None ;;
       assign_authenticated false).

Definition is_connected (st : State) : bool :=
  _authenticated st && negb (match _drive st with None => true | Some _ => false end).

Definition get_attr {A} (f : State -> A) : M State A :=
  fun st => (st, Ok (f st)).

Definition is_None {A} (o : option A) : bool :=
  match o with None => true | Some _ => false end.

Definition get_drive : M State (option Drive) :=
  authenticated <- get_attr _authenticated ;;
  drive <- get_attr _drive ;;
  (if negb authenticated || is_None drive then _initialize_drive else ret tt) ;;
  get_attr _drive.

(** [DriveManager()]: [__new__] hands out the one instance, [__init__]
    connects unless already authenticated. *)
Definition DriveManager_init : M State unit :=
  authenticated <- get_attr _authenticated ;;
  if negb authenticated then _initialize_drive else ret tt.

(** ** class AsyncUploader: the methods that talk to the remote service *)

Definition folder_query : pydict :=
  [("q", VStr "title='PhotoBooth' and mimeType='application/vnd.google-apps.folder' and trashed=false")].

Definition folder_metadata : pydict :=
  [("title", VStr "PhotoBooth");
   ("mimeType", VStr "application/vnd.google-apps.folder")].

Definition _get_or_create_folder : M State pyval :=
  try_except
    (drive <- get_drive ;;
     match drive with
     | None => ret VNone
     | Some drive =>
         folder_list <- ext (C_ListFile folder_query)
                            (sdk_ListFile_GetList drive folder_query) ;;
         match folder_list with
         | first :: _ => getitem first "id"
         | [] =>
             folder <- ext (C_CreateFile folder_metadata)
                           (sdk_CreateFile drive folder_metadata) ;;
             folder <- ext (C_Upload folder) (sdk_Upload folder) ;;
             getitem folder "id"
         end
     end)
    (fun e => print ("[!] Error managing folder: " ++ str_exn e) ;; ret VNone).

Definition file_metadata (file_path : string) (folder : pyval) : pydict :=
  [("title", VStr (basename file_path));
   ("parents", VList [VDict [("id", folder)]])].

Definition public_permission : pydict :=
  [("type", VStr "anyone"); ("value", VStr "anyone"); ("role", VStr "reader")].

Definition upload_and_get_link (file_path : string) : M State pyval :=
  try_except
    (drive <- get_drive ;;
     match drive with
     | None => print "[!] No drive connection" ;; ret VNone
     | Some drive =>
         found <- path_exists file_path ;;
         if negb found then
           print ("[!] File not found: " ++ file_path) ;; ret VNone
         else
           folder <- _get_or_create_folder ;;
           let metadata := file_metadata file_path folder in
           file <- ext (C_CreateFile metadata) (sdk_CreateFile drive metadata) ;;
           file <- ext (C_SetContentFile file_path) (sdk_SetContentFile file_path file) ;;
           file <- ext (C_Upload file) (sdk_Upload file) ;;
           file <- ext (C_InsertPermission public_permission)
                       (sdk_InsertPermission public_permission file) ;;
           share_url <- getitem file "alternateLink" ;;
           print ("[✓] Uploaded and shared: " ++ py_str share_url) ;;
           ret share_url
     end)
    (fun e => print ("[!] Failed to upload and get link: " ++ str_exn e) ;; ret VNone).

Definition _upload_file (file_path : string) : M State bool :=
  try_except
    (drive <- get_drive ;;
     match drive with
     | None =>
         print ("[!] No drive connection available for " ++ file_path) ;; ret false
     | Some drive =>
         found <- path_exists file_path ;;
         if negb found then
           print ("[!] File not found: " ++ file_path) ;; ret false
         else
           folder <- _get_or_create_folder ;;
           let metadata := file_metadata file_path folder in
           file <- ext (C_CreateFile metadata) (sdk_CreateFile drive metadata) ;;
           file <- ext (C_SetContentFile file_path) (sdk_SetContentFile file_path file) ;;
           file <- ext (C_Upload file) (sdk_Upload file) ;;
           title <- getitem file "title" ;;
           print ("[✓] Uploaded to Google Drive: " ++ py_str title) ;;
           ret true
     end)
    (fun e => print ("[!] Upload failed for " ++ file_path ++ ": " ++ str_exn e) ;; ret false).

(** ** class AsyncUploader: the queue and the worker thread *)

(** Where the worker thread stands in [_upload_worker]. *)
Inductive pc : Type :=
| AtGet                          (* about to call upload_queue.get(timeout=1) *)
| AtUpload (file_path : string)  (* got a path, about to call _upload_file *)
| AtTaskDone                     (* about to call upload_queue.task_done() *)
| Exited.                        (* left the loop through break *)

(** [upload_queue] is a [queue.Queue] of paths and [None]: its items in
    arrival order and its count of unfinished tasks. *)
Record Uploader : Type := mkUploader {
  g : State;
  upload_queue : list (option string);
  unfinished_tasks : nat;
  upload_thread : pc
}.

Definition set_g (st : State) (u : Uploader) : Uploader :=
  mkUploader st (upload_queue u) (unfinished_tasks u) (upload_thread u).

Definition lift {A} (m : M State A) : M Uploader A :=
  fun u => match m (g u) with (st', r) => (set_g st' u, r) end.

Definition put (item : option string) : M Uploader unit :=
  fun u => (mkUploader (add_event (EvPut item) (g u))
                       (upload_queue u ++ [item])
                       (S (unfinished_tasks u))
                       (upload_thread u), Ok tt).

Definition is_alive (u : Uploader) : bool :=
  match upload_thread u with Exited => false | _ => true end.

(** [upload_thread.join(timeout)]: the caller waits, nothing else changes. *)
Definition join (timeout : nat) : M Uploader unit :=
  lift (fun st => (add_event (EvJoin timeout) st, Ok tt)).

Definition get_self {A} (f : Uploader -> A) : M Uploader A :=
  fun u => (u, Ok (f u)).

Definition queue_upload (file_path : string) : M Uploader unit :=
  connected <- get_self (fun u => is_connected (g u)) ;;
  if negb connected then
    lift (print ("[!] Drive not connected, skipping upload of " ++ file_path))
  else
    put (Some file_path) ;;
    lift (print ("[i] Queued for upload: " ++ basename file_path)).

Definition stop : M Uploader unit :=
  put None ;;
  alive <- get_self is_alive ;;
  if alive then join 5 else ret tt.

(** One atomic step of the worker thread in [_upload_worker]. *)
Definition worker_step (u : Uploader) : Uploader :=
  match upload_thread u with
  | AtGet =>
      match upload_queue u with
      | [] =>
          (* get waited out its timeout: queue.Empty, continue *)
          set_g (add_event (EvEmpty 1) (g u)) u
      | None :: rest =>
          (* poison pill: break *)
          mkUploader (add_event (EvGet None) (g u)) rest (unfinished_tasks u) Exited
      | Some file_path :: rest =>
          mkUploader (add_event (EvGet (Some file_path)) (g u)) rest
                     (unfinished_tasks u) (AtUpload file_path)
      end
  | AtUpload file_path =>
      match _upload_file file_path (add_event (EvUploadFile file_path) (g u)) with
      | (st', Ok _) =>
          mkUploader st' (upload_queue u) (unfinished_tasks u) AtTaskDone
      | (st', Raise e) =>
          mkUploader (add_stdout ("[!] Upload worker error: " ++ str_exn e) st')
                     (upload_queue u) (unfinished_tasks u) AtGet
      end
  | AtTaskDone =>
      match unfinished_tasks u with
      | S n => mkUploader (add_event EvTaskDone (g u)) (upload_queue u) n AtGet
      | O =>
          let e := ValueError "task_done() called too many times" in
          mkUploader (add_stdout ("[!] Upload worker error: " ++ str_exn e) (g u))
                     (upload_queue u) (unfinished_tasks u) AtGet
      end
  | Exited => u
  end.

(** [AsyncUploader()]: a fresh queue, the shared [DriveManager], the worker
    started. *)
Definition AsyncUploader_init : State -> State * res Uploader :=
  fun st => match DriveManager_init st with
            | (st', Ok _) => (st', Ok (mkUploader st' [] 0 AtGet))
            | (st', Raise e) => (st', Raise e)
            end.

(** What the two threads can do to an uploader, one atomic action at a time:
    the UI thread calls a method, or the worker thread takes a step. *)
Inductive action : Type :=
| QueueUpload (file_path : string)
| UploadAndGetLink (file_path : string)
| Stop
| WorkerStep.

Definition step (a : action) (u : Uploader) : Uploader :=
  match a with
  | QueueUpload file_path => fst (queue_upload file_path u)
  | UploadAndGetLink file_path => fst (lift (upload_and_get_link file_path) u)
  | Stop => fst (stop u)
  | WorkerStep => worker_step u
  end.

Definition run (schedule : list action) (u : Uploader) : Uploader :=
  fold_left (fun u a => step a u) schedule u.

(** The paths [_upload_file] was called on, and the items put, in order. *)
Fixpoint uploads (t : list event) : list string :=
  match t with
  | [] => []
  | EvUploadFile p :: rest => p :: uploads rest
  | _ :: rest => uploads rest
  end.

Fixpoint puts (t : list event) : list (option string) :=
  match t with
  | [] => []
  | EvPut item :: rest => item :: puts rest
  | _ :: rest => puts rest
  end.

(** The paths of a queue history that stand before its first [None]. *)
Fixpoint before_sentinel (items : list (option string)) : list string :=
  match items with
  | Some p :: rest => p :: before_sentinel rest
  | _ => []
  end.

(** ** class PhotoBoothPython: captures and the files they leave *)

Definition output_folder : string := "final_images".

Definition background_images : list string :=
  ["background1.png"; "background2.png"; "background3.png"].

(** A thumbnail button of the background selector: its [bg_path] and what its
    callback closes over, [no_bg_img] and [input_path]. *)
Record Button : Type := mkButton {
  bg_path : string;
  no_bg_img : image;
  input_path : option string
}.

(** The attributes of the booth the captures and saves go through.  For the
    attributes [__init__] does not set, [None] says the attribute is not there
    yet ([hasattr] is false).  Attributes that are only written
    ([last_raw_path], [last_composited_path], [thumb_imgs]) and the Tk widgets
    are left out. *)
Record Booth : Type := mkBooth {
  uploader : Uploader;
  img_counter : nat;
  save_session_id : nat;
  last_captured : option string;
  last_no_bg : option image;
  last_composited : option (option image);
  last_raw : option (option image);
  preview_mode : bool;
  bg_thumb_frame : option (list Button)
}.

Definition set_uploader (u : Uploader) (b : Booth) : Booth :=
  mkBooth u (img_counter b) (save_session_id b) (last_captured b) (last_no_bg b)
          (last_composited b) (last_raw b) (preview_mode b) (bg_thumb_frame b).
Definition set_img_counter (n : nat) (b : Booth) : Booth :=
  mkBooth (uploader b) n (save_session_id b) (last_captured b) (last_no_bg b)
          (last_composited b) (last_raw b) (preview_mode b) (bg_thumb_frame b).
Definition set_save_session_id (n : nat) (b : Booth) : Booth :=
  mkBooth (uploader b) (img_counter b) n (last_captured b) (last_no_bg b)
          (last_composited b) (last_raw b) (preview_mode b) (bg_thumb_frame b).
Definition set_last_captured (x : option string) (b : Booth) : Booth :=
  mkBooth (uploader b) (img_counter b) (save_session_id b) x (last_no_bg b)
          (last_composited b) (last_raw b) (preview_mode b) (bg_thumb_frame b).
Definition set_last_no_bg (x : option image) (b : Booth) : Booth :=
  mkBooth (uploader b) (img_counter b) (save_session_id b) (last_captured b) x
          (last_composited b) (last_raw b) (preview_mode b) (bg_thumb_frame b).
Definition set_last_composited (x : option image) (b : Booth) : Booth :=
  mkBooth (uploader b) (img_counter b) (save_session_id b) (last_captured b) (last_no_bg b)
          (Some x) (last_raw b) (preview_mode b) (bg_thumb_frame b).
Definition set_last_raw (x : option image) (b : Booth) : Booth :=
  mkBooth (uploader b) (img_counter b) (save_session_id b) (last_captured b) (last_no_bg b)
          (last_composited b) (Some x) (preview_mode b) (bg_thumb_frame b).
Definition set_preview_mode (x : bool) (b : Booth) : Booth :=
  mkBooth (uploader b) (img_counter b) (save_session_id b) (last_captured b) (last_no_bg b)
          (last_composited b) (last_raw b) x (bg_thumb_frame b).
Definition set_bg_thumb_frame (x : option (list Button)) (b : Booth) : Booth :=
  mkBooth (uploader b) (img_counter b) (save_session_id b) (last_captured b) (last_no_bg b)
          (last_composited b) (last_raw b) (preview_mode b) x.

Definition liftU {A} (m : M Uploader A) : M Booth A :=
  fun b => match m (uploader b) with (u', r) => (set_uploader u' b, r) end.

Definition liftS {A} (m : M State A) : M Booth A := liftU (lift m).

Definition assign (f : Booth -> Booth) : M Booth unit :=
  fun b => (f b, Ok tt).

Definition self {A} (f : Booth -> A) : M Booth A :=
  fun b => (b, Ok (f b)).

Definition resource_path (relative_path : string) : M Booth string :=
  liftS (base <- read base_path ;; ret (path_join base relative_path)).

(** [Image.open(path)]; a path that is [None] makes PIL raise. *)
Definition PIL_open (path : option string) : M Booth image :=
  match path with
  | Some p => liftS (ext (C_Image_open p) (Image_open p)) ;; ret (Opened p)
  | None => raise (Exception "AttributeError" "'NoneType' object has no attribute 'read'")
  end.

Definition convert_RGBA (img : image) : M Booth image :=
  liftS (ext (C_convert_RGBA img) (Image_convert_RGBA img)) ;; ret (RGBA img).

Definition resize (img : image) : M Booth image :=
  liftS (ext (C_resize img) (Image_resize img)) ;; ret (Resized img).

Definition remove (img : image) : M Booth image :=
  liftS (ext (C_remove img) (rembg_remove img)) ;; ret (NoBg img).

Definition alpha_composite (background foreground : image) : M Booth image :=
  liftS (ext (C_alpha_composite background foreground)
             (Image_alpha_composite background foreground)) ;;
  ret (Composite background foreground).

Definition display_image (img : image) : M Booth unit :=
  liftS (ext (C_display_image img) (tk_display_image img)).

Definition display_qr_code (url : pyval) : M Booth unit :=
  liftS (ext (C_display_qr_code url) (tk_display_qr_code url)).

Definition raw_name (n : nat) : string := "photo_" ++ str_int n ++ ".png".

Definition final_name (n : nat) (filename_suffix : string) : string :=
  "photo_" ++ str_int n ++ filename_suffix ++ ".png".

(** [ok, frame = self.cap.read()]; the frame itself stays with cv2. *)
Definition read_frame : M State bool :=
  fun st => match cap_read (world st) with
            | (w', ok) => (add_event (EvCall C_cap_read None) (set_world w' st), Ok ok)
            end.

Definition take_photo : M Booth unit :=
  ok <- liftS read_frame ;;
  if ok then
    n <- self img_counter ;;
    let fname := raw_name n in
    liftS (ext (C_imwrite fname) (cv2_imwrite fname)) ;;
    liftS (print ("[✓] Saved " ++ fname)) ;;
    assign (set_img_counter (n + 1)) ;;
    n' <- self img_counter ;;
    assign (set_save_session_id n') ;;
    assign (set_last_captured (Some fname)) ;;
    assign (set_preview_mode true) ;;
    liftU (queue_upload fname) ;;
    raw_img <- PIL_open (Some fname) ;;
    display_image raw_img ;;
    assign (set_last_no_bg None) ;;
    assign (set_last_composited None) ;;
    assign (set_last_raw (Some raw_img))
  else ret tt.

Definition hide_preview : M Booth unit :=
  assign (set_preview_mode false).

Definition close_background_selector : M Booth unit :=
  assign (set_bg_thumb_frame None).

Definition show_cutout (input : option string) : M Booth unit :=
  try_except
    (img <- PIL_open input ;;
     img <- convert_RGBA img ;;
     no_bg <- remove img ;;
     assign (set_last_no_bg (Some no_bg)) ;;
     assign (set_preview_mode true) ;;
     display_image no_bg ;;
     liftS (ext (C_makedirs output_folder) (os_makedirs output_folder)) ;;
     sid <- self save_session_id ;;
     let filename := "photo_" ++ str_int sid ++ "_cutout.png" in
     let final_path := path_join output_folder filename in
     liftS (ext (C_save no_bg final_path) (Image_save no_bg final_path)) ;;
     share_url <- liftS (upload_and_get_link final_path) ;;
     display_qr_code share_url)
    (fun e => liftS (print ("[!] Error generating cutout: " ++ str_exn e))).

Definition add_button (btn : Button) (b : Booth) : Booth :=
  set_bg_thumb_frame
    (Some ((match bg_thumb_frame b with Some l => l | None => [] end) ++ [btn])%list) b.

Fixpoint thumbnail_loop (bgs : list string) (no_bg : image) (input : option string)
  : M Booth unit :=
  match bgs with
  | [] => ret tt
  | bg :: rest =>
      p <- resource_path bg ;;
      img <- PIL_open (Some p) ;;
      img <- convert_RGBA img ;;
      img <- resize img ;;
      _ <- alpha_composite img no_bg ;;
      liftS (ext (C_thumbnail_button bg) (tk_thumbnail_button bg)) ;;
      assign (add_button (mkButton bg no_bg input)) ;;
      thumbnail_loop rest no_bg input
  end.

Definition show_background_thumbnails (no_bg : image) (input : option string)
  : M Booth unit :=
  assign (set_bg_thumb_frame (Some [])) ;;
  thumbnail_loop background_images no_bg input.

Definition remove_background (input : option string) : M Booth unit :=
  try_except
    (person <- PIL_open input ;;
     person <- convert_RGBA person ;;
     no_bg <- remove person ;;
     assign (set_last_no_bg (Some no_bg)) ;;
     assign (set_preview_mode true) ;;
     show_background_thumbnails no_bg input)
    (fun e => liftS (print ("[!] Error removing background: " ++ str_exn e))).

(** The callback of a thumbnail button. *)
Definition on_bg_click (btn : Button) : M Booth unit :=
  p <- resource_path (bg_path btn) ;;
  background <- PIL_open (Some p) ;;
  background <- convert_RGBA background ;;
  background <- resize background ;;
  final_img <- alpha_composite background (no_bg_img btn) ;;
  display_image final_img ;;
  assign (set_last_composited (Some final_img)).

Definition truthy_attr (a : option (option image)) : option image :=
  match a with Some (Some img) => Some img | _ => None end.

Definition save_final_image : M Booth unit :=
  liftS (ext (C_makedirs output_folder) (os_makedirs output_folder)) ;;
  composited <- self last_composited ;;
  no_bg <- self last_no_bg ;;
  raw <- self last_raw ;;
  let choice :=
    match truthy_attr composited with
    | Some img => Some (img, "_composited")
    | None =>
        match no_bg with
        | Some img => Some (img, "_cutout")
        | None =>
            match truthy_attr raw with
            | Some img => Some (img, "_raw")
            | None => None
            end
        end
    end in
  match choice with
  | None => liftS (print "[!] No image to save.")
  | Some (image_to_save, filename_suffix) =>
      sid <- self save_session_id ;;
      let filename := "photo_" ++ str_int sid ++ filename_suffix ++ ".png" in
      let final_path := path_join output_folder filename in
      try_except
        (liftS (ext (C_save image_to_save final_path)
                    (Image_save image_to_save final_path)) ;;
         liftS (print ("[✓] Saved final image: " ++ final_path)) ;;
         share_url <- liftS (upload_and_get_link final_path) ;;
         display_qr_code share_url)
        (fun e => liftS (print ("[!] Error saving image: " ++ str_exn e)))
  end.

Definition on_close : M Booth unit := liftU stop.

(** [PhotoBoothPython(root)], as far as the attributes above go. *)
Definition PhotoBooth_init (u : Uploader) : Booth :=
  mkBooth u 0 1 None None None None false None.

(** What can happen to a booth: a Tk callback runs to its end on the UI
    thread (an exception that escapes it is reported by Tk and the event loop
    goes on), or the upload worker takes a step. *)
Inductive ui : Type :=
| Capture                  (* finish_countdown: take_photo *)
| ClickRetake              (* hide_preview *)
| ClickCutout              (* show_cutout(self.last_captured, frame) *)
| ClickRemoveBackground    (* remove_background(self.last_captured, frame) *)
| ClickBackground (i : nat)(* the i-th thumbnail of the selector *)
| ClickCloseSelector       (* close_background_selector *)
| ClickSaveFinal           (* save_final_image *)
| Upload                   (* a step of the upload worker thread *)
| Quit.                    (* on_close *)

Definition callback (m : M Booth unit) (b : Booth) : Booth := fst (m b).

Definition booth_step (a : ui) (b : Booth) : Booth :=
  match a with
  | Capture => callback take_photo b
  | ClickRetake => callback hide_preview b
  | ClickCutout => callback (show_cutout (last_captured b)) b
  | ClickRemoveBackground => callback (remove_background (last_captured b)) b
  | ClickBackground i =>
      match bg_thumb_frame b with
      | Some buttons =>
          match nth_error buttons i with
          | Some btn => callback (on_bg_click btn) b
          | None => b
          end
      | None => b
      end
  | ClickCloseSelector => callback close_background_selector b
  | ClickSaveFinal => callback save_final_image b
  | Upload => set_uploader (worker_step (uploader b)) b
  | Quit => callback on_close b
  end.

Definition booth_run (events : list ui) (b : Booth) : Booth :=
  fold_left (fun b a => booth_step a b) events b.

(** The file-system writes of a trace. *)
Inductive fileop : Type :=
| Imwrite (fname : string) (returned : bool)
| Makedirs (dir : string) (returned : bool)
| Save (img : image) (path : string).

Fixpoint fileops (t : list event) : list fileop :=
  match t with
  | [] => []
  | EvCall (C_imwrite f) exc :: rest => Imwrite f (is_None exc) :: fileops rest
  | EvCall (C_makedirs d) exc :: rest => Makedirs d (is_None exc) :: fileops rest
  | EvCall (C_save img p) _ :: rest => Save img p :: fileops rest
  | _ :: rest => fileops rest
  end.

Definition booth_trace (b : Booth) : list event := trace (g (uploader b)).

End Model.

Arguments State W : clear implicits.
Arguments Uploader W : clear implicits.
Arguments Booth W : clear implicits.

(** ** A simulated environment

    A small, fully executable world: a local file system, a credential
    store and a remote Drive whose failures are switched on by flags.  It
    serves to run the program on concrete inputs. *)

Record Sim : Type := mkSim {
  sim_files : list string;          (* local files that exist *)
  sim_credentials : bool;           (* gauth.credentials is not None *)
  sim_load_raises : bool;           (* LoadCredentialsFile raises *)
  sim_auth_raises : bool;           (* LocalWebserverAuth raises *)
  sim_list_raises : bool;           (* ListFile(...).GetList() raises *)
  sim_upload_raises : bool;         (* Upload() raises *)
  sim_folders : list DriveFile      (* the remote PhotoBooth folders *)
}.

Definition sim_add_file (p : string) (w : Sim) : Sim :=
  mkSim (p :: sim_files w) (sim_credentials w) (sim_load_raises w) (sim_auth_raises w)
        (sim_list_raises w) (sim_upload_raises w) (sim_folders w).

Definition sim_set_credentials (c : bool) (w : Sim) : Sim :=
  mkSim (sim_files w) c (sim_load_raises w) (sim_auth_raises w)
        (sim_list_raises w) (sim_upload_raises w) (sim_folders w).

Definition sim_add_folder (f : DriveFile) (w : Sim) : Sim :=
  mkSim (sim_files w) (sim_credentials w) (sim_load_raises w) (sim_auth_raises w)
        (sim_list_raises w) (sim_upload_raises w) (sim_folders w ++ [f]).

Definition sim_exists (p : string) (w : Sim) : bool :=
  existsb (String.eqb p) (sim_files w).

Definition sim_is_folder (f : DriveFile) : bool :=
  match dict_get f "mimeType" with
  | Some (VStr "application/vnd.google-apps.folder") => true
  | _ => false
  end.

Definition sim_Upload (f : DriveFile) (w : Sim) : Sim * res DriveFile :=
  if sim_upload_raises w then
    (w, Raise (Exception "ApiRequestError" "upload refused"))
  else if sim_is_folder f then
    let f' := (f ++ [("id", VStr "folder-1")])%list in
    (sim_add_folder f' w, Ok f')
  else
    (w, Ok (f ++ [("id", VStr "file-1");
                  ("alternateLink", VStr "https://drive.example/file-1")])%list).

Definition sim_open (p : string) (w : Sim) : Sim * res unit :=
  if sim_exists p w then (w, Ok tt)
  else (w, Raise (Exception "FileNotFoundError" p)).

#[export] Instance SimEnv : Env Sim := {|
  os_path_exists := sim_exists;
  sdk_GoogleAuth := fun w => (sim_set_credentials false w, Ok tt);
  sdk_LoadCredentialsFile := fun _ w =>
    if sim_load_raises w
    then (w, Raise (Exception "InvalidCredentialsError" "credentials file is damaged"))
    else (sim_set_credentials true w, Ok tt);
  gauth_credentials_is_None := fun w => negb (sim_credentials w);
  gauth_access_token_expired := fun _ => false;
  sdk_LocalWebserverAuth := fun w =>
    if sim_auth_raises w
    then (w, Raise (Exception "AuthenticationRejected" "User rejected authentication"))
    else (sim_set_credentials true w, Ok tt);
  sdk_Refresh := fun w => (w, Ok tt);
  sdk_Authorize := fun w => (w, Ok tt);
  sdk_SaveCredentialsFile := fun f w => (sim_add_file f w, Ok tt);
  sdk_GoogleDrive := fun w => (w, Ok (GoogleDrive 0));
  sdk_ListFile_GetList := fun _ _ w =>
    if sim_list_raises w
    then (w, Raise (Exception "ApiRequestError" "listing refused"))
    else (w, Ok (sim_folders w));
  sdk_CreateFile := fun _ metadata w => (w, Ok metadata);
  sdk_SetContentFile := fun p f w =>
    match sim_open p w with
    | (w', Ok _) => (w', Ok f)
    | (w', Raise e) => (w', Raise e)
    end;
  sdk_Upload := sim_Upload;
  sdk_InsertPermission := fun _ f w => (w, Ok f);
  cap_read := fun w => (w, true);
  cv2_imwrite := fun f w => (sim_add_file f w, Ok tt);
  Image_open := sim_open;
  Image_convert_RGBA := fun _ w => (w, Ok tt);
  Image_resize := fun _ w => (w, Ok tt);
  rembg_remove := fun _ w => (w, Ok tt);
  Image_alpha_composite := fun _ _ w => (w, Ok tt);
  os_makedirs := fun _ w => (w, Ok tt);
  Image_save := fun _ p w => (sim_add_file p w, Ok tt);
  tk_display_image := fun _ w => (w, Ok tt);
  tk_thumbnail_button := fun _ w => (w, Ok tt);
  tk_display_qr_code := fun _ w => (w, Ok tt);
  base_path := fun _ => "/opt/booth"
|}.

Definition sim_resources : list string :=
  ["/opt/booth/background1.png"; "/opt/booth/background2.png";
   "/opt/booth/background3.png"].

Definition sim_folder : DriveFile :=
  [("id", VStr "folder-0"); ("title", VStr "PhotoBooth");
   ("mimeType", VStr "application/vnd.google-apps.folder")].

(** Everything works, the remote folder is there. *)
Definition sim_healthy : Sim :=
  mkSim ("final_images/photo_1_cutout.png" :: sim_resources)
        false false false false false [sim_folder].

(** The listing of folders is refused, everything else works. *)
Definition sim_listing_down : Sim :=
  mkSim ("final_images/photo_1_cutout.png" :: sim_resources)
        false false false true false [sim_folder].

(** Uploads are refused. *)
Definition sim_upload_down : Sim :=
  mkSim ("final_images/photo_1_cutout.png" :: sim_resources)
        false false false false true [sim_folder].

(** A credentials file that cannot be read; the operator then signs in. *)
Definition sim_damaged_credentials : Sim :=
  mkSim ["mycreds.txt"] false true false false false [sim_folder].

(** No credentials file, and the operator rejects the sign-in. *)
Definition sim_rejected : Sim :=
  mkSim [] false false true false false [sim_folder].

(** The process as it starts: the class attributes of [DriveManager]. *)
Definition initial_state {W} (w : W) : State W := mkState w None false [] [].

(** A process whose session is established. *)
Definition connected_state {W} (w : W) : State W :=
  mkState w (Some (GoogleDrive 0)) true [] [].

Definition fresh_uploader {W} (st : State W) : Uploader W :=
  mkUploader st [] 0 AtGet.

(** * Proofs *)

Section Proofs.
Context {W : Type} {E : Env W}.

#[local] Abbreviation State := (State W).
#[local] Abbreviation Uploader := (Uploader W).
#[local] Abbreviation Booth := (Booth W).

(** ** Invariants of monadic code *)

Definition preserves {S A} (I : S -> Prop) (m : M S A) : Prop :=
  forall s, I s -> I (fst (m s)).

Definition noraise {S A} (m : M S A) : Prop :=
  forall s, exists a, snd (m s) = Ok a.

Lemma preserves_ret {S A} (I : S -> Prop) (a : A) : preserves I (ret a).
Proof. intros s H; exact H. Qed.

Lemma preserves_raise {S A} (I : S -> Prop) e : preserves I (@raise S A e).
Proof. intros s H; exact H. Qed.

Lemma preserves_bind {S A B} (I : S -> Prop) (m : M S A) (k : A -> M S B) :
  preserves I m -> (forall a, preserves I (k a)) -> preserves I (bind m k).
Proof.
  intros Hm Hk s Hs. unfold bind. specialize (Hm s Hs).
  destruct (m s) as [s' [a|e]]; simpl in *; [apply Hk; exact Hm | exact Hm].
Qed.

Lemma preserves_try {S A} (I : S -> Prop) (m : M S A) (h : exn -> M S A) :
  preserves I m -> (forall e, preserves I (h e)) -> preserves I (try_except m h).
Proof.
  intros Hm Hh s Hs. unfold try_except. specialize (Hm s Hs).
  destruct (m s) as [s' [a|e]]; simpl in *; [exact Hm | apply Hh; exact Hm].
Qed.

Lemma preserves_getitem {S} (I : S -> Prop) d k : preserves I (@getitem S d k).
Proof.
  unfold getitem. destruct (dict_get d k); [apply preserves_ret | apply preserves_raise].
Qed.

Lemma noraise_ret {S A} (a : A) : noraise (@ret S A a).
Proof. intros s; exists a; reflexivity. Qed.

Lemma noraise_bind {S A B} (m : M S A) (k : A -> M S B) :
  noraise m -> (forall a, noraise (k a)) -> noraise (bind m k).
Proof.
  intros Hm Hk s. unfold bind. destruct (Hm s) as [a Ha].
  destruct (m s) as [s' r]; simpl in Ha; subst r. apply Hk.
Qed.

Lemma noraise_try {S A} (m : M S A) (h : exn -> M S A) :
  (forall e, noraise (h e)) -> noraise (try_except m h).
Proof.
  intros Hh s. unfold try_except.
  destruct (m s) as [s' [a|e]]; [exists a; reflexivity | apply Hh].
Qed.

Lemma noraise_print line : noraise (S := State) (print line).
Proof. intros s; exists tt; reflexivity. Qed.

Lemma noraise_assign_drive d : noraise (S := State) (assign_drive d).
Proof. intros s; exists tt; reflexivity. Qed.

Lemma noraise_assign_authenticated b : noraise (S := State) (assign_authenticated b).
Proof. intros s; exists tt; reflexivity. Qed.

Lemma noraise_get_attr {A} (f : State -> A) : noraise (get_attr f).
Proof. intros s; exists (f s); reflexivity. Qed.

Create HintDb noraise.
#[local] Hint Resolve noraise_ret noraise_print noraise_assign_drive
  noraise_assign_authenticated noraise_get_attr : noraise.

Ltac noraise_handler :=
  intros; repeat (apply noraise_bind; [ | intros ]); auto with noraise.

(** Every method that wraps its body in [try ... except Exception] returns. *)

Lemma _initialize_drive_noraise : noraise (S := State) _initialize_drive.
Proof. apply noraise_try. noraise_handler. Qed.

Lemma get_drive_noraise : noraise (S := State) get_drive.
Proof.
  unfold get_drive. noraise_handler.
  destruct (negb _ || _); [apply _initialize_drive_noraise | auto with noraise].
Qed.

Lemma _get_or_create_folder_noraise : noraise (S := State) _get_or_create_folder.
Proof. apply noraise_try. noraise_handler. Qed.

Lemma upload_and_get_link_noraise p : noraise (S := State) (upload_and_get_link p).
Proof. apply noraise_try. noraise_handler. Qed.

Lemma _upload_file_noraise p : noraise (S := State) (_upload_file p).
Proof. apply noraise_try. noraise_handler. Qed.

(** ** Invariants that external calls cannot break *)

(** The events the [DriveManager] and the remote-service methods emit. *)
Definition sdk_call (c : call) : bool :=
  match c with
  | C_GoogleAuth | C_LoadCredentialsFile _ | C_LocalWebserverAuth | C_Refresh
  | C_Authorize | C_SaveCredentialsFile _ | C_GoogleDrive | C_ListFile _
  | C_CreateFile _ | C_SetContentFile _ | C_Upload _ | C_InsertPermission _ => true
  | _ => false
  end.

Definition sdk_event (e : event) : bool :=
  match e with
  | EvCall c _ => sdk_call c
  | EvExists _ _ => true
  | _ => false
  end.

Record stable (I : State -> Prop) : Prop := {
  stable_world : forall w st, I st -> I (set_world w st);
  stable_stdout : forall line st, I st -> I (add_stdout line st);
  stable_event : forall e st, sdk_event e = true -> I st -> I (add_event e st)
}.

Section Stable.
Variable I : State -> Prop.
Hypothesis HI : stable I.

Lemma preserves_print line : preserves I (print line).
Proof. intros st H. apply (stable_stdout I HI); exact H. Qed.

Lemma preserves_ext {A} c (f : W -> W * res A) :
  sdk_call c = true -> preserves I (ext c f).
Proof.
  intros Hc st H. unfold ext. destruct (f (world st)) as [w' r]. simpl.
  apply (stable_event I HI); [exact Hc | apply (stable_world I HI); exact H].
Qed.

Lemma preserves_read {A} (f : W -> A) : preserves I (read f).
Proof. intros st H; exact H. Qed.

Lemma preserves_get_attr {A} (f : State -> A) : preserves I (get_attr f).
Proof. intros st H; exact H. Qed.

Lemma preserves_path_exists p : preserves I (path_exists p).
Proof. intros st H. apply (stable_event I HI); [reflexivity | exact H]. Qed.

Ltac pres :=
  repeat (intros;
          match goal with
          | H : preserves ?I ?m |- preserves ?I ?m => exact H
          | H : forall x, preserves ?I (?m x) |- preserves ?I (?m _) => apply H
          | |- preserves _ (bind _ _) => apply preserves_bind
          | |- preserves _ (try_except _ _) => apply preserves_try
          | |- preserves _ (ret _) => apply preserves_ret
          | |- preserves _ (raise _) => apply preserves_raise
          | |- preserves _ (print _) => apply preserves_print
          | |- preserves _ (read _) => apply preserves_read
          | |- preserves _ (get_attr _) => apply preserves_get_attr
          | |- preserves _ (path_exists _) => apply preserves_path_exists
          | |- preserves _ (getitem _ _) => apply preserves_getitem
          | |- preserves _ (ext _ _) => apply preserves_ext; reflexivity
          | |- preserves _ (if ?b then _ else _) => destruct b
          | |- preserves _ (match ?x with _ => _ end) => destruct x
          end).

(** Once [get_drive] keeps an invariant, so do the three methods built on it. *)
Hypothesis Hget : preserves I get_drive.

Lemma preserves_get_or_create_folder : preserves I _get_or_create_folder.
Proof. unfold _get_or_create_folder. pres. Qed.

Lemma preserves_upload_and_get_link p : preserves I (upload_and_get_link p).
Proof.
  pose proof preserves_get_or_create_folder. unfold upload_and_get_link. pres.
Qed.

Lemma preserves_upload_file p : preserves I (_upload_file p).
Proof.
  pose proof preserves_get_or_create_folder. unfold _upload_file. pres.
Qed.

(** If the invariant also survives the two assignments of
    [_initialize_drive], every method keeps it. *)
Hypothesis HI_drive : forall d st, I st -> I (set__drive d st).
Hypothesis HI_auth : forall b st, I st -> I (set__authenticated b st).

Lemma preserves_initialize_drive : preserves I _initialize_drive.
Proof.
  assert (Hd : forall d, preserves I (assign_drive d)) by (intros d st H; apply HI_drive, H).
  assert (Ha : forall b, preserves I (assign_authenticated b)) by (intros b st H; apply HI_auth, H).
  unfold _initialize_drive. pres.
Qed.

End Stable.

(** ** The connected session *)

Definition connected_with (d : Drive) (st : State) : Prop :=
  _drive st = Some d /\ _authenticated st = true.

Lemma is_connected_with st :
  is_connected st = true -> exists d, connected_with d st.
Proof.
  unfold is_connected, connected_with. destruct (_authenticated st); [ | discriminate].
  destruct (_drive st) as [d|]; [ | discriminate]. intros _. exists d. split; reflexivity.
Qed.

Lemma connected_with_is_connected d st :
  connected_with d st -> is_connected st = true.
Proof. intros [Hd Ha]. unfold is_connected. rewrite Hd, Ha. reflexivity. Qed.

(** A connected session is handed out as it is: no new initialization. *)
Lemma get_drive_connected d st :
  connected_with d st -> get_drive st = (st, Ok (Some d)).
Proof.
  intros [Hd Ha]. unfold get_drive, bind, get_attr. rewrite Hd, Ha. simpl.
  rewrite Hd. reflexivity.
Qed.

Lemma stable_connected_with d : stable (connected_with d).
Proof. split; intros; assumption. Qed.

Lemma get_drive_keeps_connected d : preserves (connected_with d) get_drive.
Proof. intros st H. rewrite (get_drive_connected d st H). exact H. Qed.

(** ** Projections of the trace that the remote-service methods do not touch *)

Definition quiet {X} (f : list event -> X) : Prop :=
  forall t e, sdk_event e = true -> f (t ++ [e])%list = f t.

Lemma stable_quiet {X} (f : list event -> X) (x : X) :
  quiet f -> stable (fun st => f (trace st) = x).
Proof.
  intros Hq. split; intros; simpl; try assumption.
  rewrite Hq; assumption.
Qed.

Section Quiet.
Context {X : Type} (f : list event -> X) (Hq : quiet f).

Lemma quiet_initialize_drive st :
  f (trace (fst (_initialize_drive st))) = f (trace st).
Proof.
  apply (preserves_initialize_drive (fun s => f (trace s) = f (trace st)));
    auto using stable_quiet.
Qed.

Lemma quiet_get_drive st : f (trace (fst (get_drive st))) = f (trace st).
Proof.
  unfold get_drive, bind, get_attr.
  destruct (negb (_authenticated st) || is_None (_drive st)).
  - pose proof (quiet_initialize_drive st) as H.
    destruct (_initialize_drive st) as [st' [[]|e]]; exact H.
  - reflexivity.
Qed.

Lemma quiet_preserves_get_drive x :
  preserves (fun s => f (trace s) = x) get_drive.
Proof. intros st H. rewrite quiet_get_drive. exact H. Qed.

Lemma quiet_upload_and_get_link p st :
  f (trace (fst (upload_and_get_link p st))) = f (trace st).
Proof.
  apply (preserves_upload_and_get_link (fun s => f (trace s) = f (trace st)));
    auto using stable_quiet, quiet_preserves_get_drive.
Qed.

Lemma quiet_upload_file p st :
  f (trace (fst (_upload_file p st))) = f (trace st).
Proof.
  apply (preserves_upload_file (fun s => f (trace s) = f (trace st)));
    auto using stable_quiet, quiet_preserves_get_drive.
Qed.

End Quiet.

(** ** Session initialization *)

(** A call of the provider SDK that raised, other than the loading of the
    credentials file (whose failure has its own handler). *)
Definition fatal (e : event) : bool :=
  match e with
  | EvCall (C_LoadCredentialsFile _) _ => false
  | EvCall _ (Some _) => true
  | _ => false
  end.

(** Case analysis on the innermost undecided test or external call. *)
Ltac oracle :=
  match goal with
  | |- context [match ?x with _ => _ end] =>
      lazymatch x with
      | context [match _ with _ => _ end] => fail
      | _ => destruct x eqn:?; simpl
      end
  end.

Ltac trace_done :=
  simpl; rewrite <- ?app_assoc; simpl; reflexivity.

Lemma _initialize_drive_spec (st : State) :
  exists st' evs,
    _initialize_drive st = (st', Ok tt) /\
    trace st' = (trace st ++ evs)%list /\
    (existsb fatal evs = true -> _drive st' = None /\ _authenticated st' = false) /\
    (existsb fatal evs = false ->
     exists d, _drive st' = Some d /\ _authenticated st' = true).
Proof.
  unfold _initialize_drive, try_except, bind, ext, path_exists, read, print,
    assign_drive, assign_authenticated.
  simpl.
  repeat oracle;
    (eexists; eexists; split; [reflexivity | ]; split; [trace_done | ];
     simpl; split; intros H; try discriminate H; eauto).
Qed.

(** ** The steps of [upload_and_get_link] and how they fail *)

(** The remote steps on the file, run from world [w] with the parent folder
    already resolved: the calls issued up to and including the failing one. *)
Inductive file_step_fails (d : Drive) (p : string) (metadata : pydict) (w : W)
  : list event -> Prop :=
| create_fails w' e :
    sdk_CreateFile d metadata w = (w', Raise e) ->
    file_step_fails d p metadata w
      [EvCall (C_CreateFile metadata) (Some e)]
| content_fails w1 f1 w' e :
    sdk_CreateFile d metadata w = (w1, Ok f1) ->
    sdk_SetContentFile p f1 w1 = (w', Raise e) ->
    file_step_fails d p metadata w
      [EvCall (C_CreateFile metadata) None;
       EvCall (C_SetContentFile p) (Some e)]
| upload_fails w1 f1 w2 f2 w' e :
    sdk_CreateFile d metadata w = (w1, Ok f1) ->
    sdk_SetContentFile p f1 w1 = (w2, Ok f2) ->
    sdk_Upload f2 w2 = (w', Raise e) ->
    file_step_fails d p metadata w
      [EvCall (C_CreateFile metadata) None;
       EvCall (C_SetContentFile p) None;
       EvCall (C_Upload f2) (Some e)]
| permission_fails w1 f1 w2 f2 w3 f3 w' e :
    sdk_CreateFile d metadata w = (w1, Ok f1) ->
    sdk_SetContentFile p f1 w1 = (w2, Ok f2) ->
    sdk_Upload f2 w2 = (w3, Ok f3) ->
    sdk_InsertPermission public_permission f3 w3 = (w', Raise e) ->
    file_step_fails d p metadata w
      [EvCall (C_CreateFile metadata) None;
       EvCall (C_SetContentFile p) None;
       EvCall (C_Upload f2) None;
       EvCall (C_InsertPermission public_permission) (Some e)]
| link_fails w1 f1 w2 f2 w3 f3 w4 f4 :
    sdk_CreateFile d metadata w = (w1, Ok f1) ->
    sdk_SetContentFile p f1 w1 = (w2, Ok f2) ->
    sdk_Upload f2 w2 = (w3, Ok f3) ->
    sdk_InsertPermission public_permission f3 w3 = (w4, Ok f4) ->
    dict_get f4 "alternateLink" = None ->
    file_step_fails d p metadata w
      [EvCall (C_CreateFile metadata) None;
       EvCall (C_SetContentFile p) None;
       EvCall (C_Upload f2) None;
       EvCall (C_InsertPermission public_permission) None].

(** A failure of [upload_and_get_link p] from [st] outside folder resolution,
    with the trace the operation has left when it fails. *)
Inductive failure (st : State) (p : string) : list event -> Prop :=
| handle_absent st1 :
    get_drive st = (st1, Ok None) ->
    failure st p (trace st1)
| file_missing st1 d :
    get_drive st = (st1, Ok (Some d)) ->
    os_path_exists p (world st1) = false ->
    failure st p (trace st1 ++ [EvExists p false])
| remote_step st1 d st2 folder evs :
    get_drive st = (st1, Ok (Some d)) ->
    os_path_exists p (world st1) = true ->
    _get_or_create_folder (add_event (EvExists p true) st1) = (st2, Ok folder) ->
    file_step_fails d p (file_metadata p folder) (world st2) evs ->
    failure st p (trace st2 ++ evs).

(** A failure inside folder resolution, on a connected session. *)
Inductive folder_fails (d : Drive) (w : W) : Prop :=
| listing_fails w' e :
    sdk_ListFile_GetList d folder_query w = (w', Raise e) -> folder_fails d w
| found_without_id w' first rest :
    sdk_ListFile_GetList d folder_query w = (w', Ok (first :: rest)) ->
    dict_get first "id" = None -> folder_fails d w
| folder_create_fails w1 w' e :
    sdk_ListFile_GetList d folder_query w = (w1, Ok []) ->
    sdk_CreateFile d folder_metadata w1 = (w', Raise e) -> folder_fails d w
| folder_upload_fails w1 w2 folder w' e :
    sdk_ListFile_GetList d folder_query w = (w1, Ok []) ->
    sdk_CreateFile d folder_metadata w1 = (w2, Ok folder) ->
    sdk_Upload folder w2 = (w', Raise e) -> folder_fails d w.

Lemma upload_and_get_link_failure st p t :
  failure st p t ->
  exists st', upload_and_get_link p st = (st', Ok VNone) /\ trace st' = t.
Proof.
  intros H. unfold upload_and_get_link, try_except, bind.
  destruct H as [st1 Hg | st1 d Hg Hex | st1 d st2 folder evs Hg Hex Hf Hs].
  - rewrite Hg. simpl. eexists; split; reflexivity.
  - rewrite Hg. unfold path_exists. rewrite Hex. simpl.
    eexists; split; reflexivity.
  - rewrite Hg. unfold path_exists. rewrite Hex. simpl. rewrite Hf.
    unfold ext, getitem.
    destruct Hs as [w' e H1 | w1 f1 w' e H1 H2 | w1 f1 w2 f2 w' e H1 H2 H3
                   | w1 f1 w2 f2 w3 f3 w' e H1 H2 H3 H4
                   | w1 f1 w2 f2 w3 f3 w4 f4 H1 H2 H3 H4 H5];
      rewrite H1; simpl;
      try (rewrite H2; simpl); try (rewrite H3; simpl);
      try (rewrite H4; simpl); try (rewrite H5; simpl);
      (eexists; split; [reflexivity | trace_done]).
Qed.

Lemma _get_or_create_folder_failure d st :
  connected_with d st -> folder_fails d (world st) ->
  snd (_get_or_create_folder st) = Ok VNone.
Proof.
  intros Hc H. unfold _get_or_create_folder, try_except, bind.
  rewrite (get_drive_connected d st Hc). unfold ext, getitem.
  destruct H as [w' e H1 | w' first rest H1 H2 | w1 w' e H1 H2
                | w1 w2 folder w' e H1 H2 H3];
    rewrite H1; simpl; try (rewrite H2; simpl); try (rewrite H3; simpl);
    reflexivity.
Qed.

Lemma returns_of_noraise {S A} (m : M S A) :
  noraise m -> forall s, exists s' a, m s = (s', Ok a).
Proof.
  intros H s. destruct (H s) as [a Ha]. destruct (m s) as [s' r]; simpl in Ha.
  subst r. eauto.
Qed.

(** ** Claims about [DriveManager] and the remote-service methods *)

(** C2: whenever [is_connected()] is false, [queue_upload(path)] returns
    normally and leaves the upload queue, its count of unfinished tasks and
    the worker as they were; all it does is print one line. *)
Theorem queue_upload_disconnected (u : Uploader) (file_path : string) :
  is_connected (g u) = false ->
  queue_upload file_path u =
    (set_g (add_stdout ("[!] Drive not connected, skipping upload of " ++ file_path)
                       (g u)) u,
     Ok tt)
  /\ upload_queue (fst (queue_upload file_path u)) = upload_queue u
  /\ unfinished_tasks (fst (queue_upload file_path u)) = unfinished_tasks u
  /\ upload_thread (fst (queue_upload file_path u)) = upload_thread u
  /\ trace (g (fst (queue_upload file_path u))) = trace (g u).
Proof.
  intros H.
  assert (Heq : queue_upload file_path u =
    (set_g (add_stdout ("[!] Drive not connected, skipping upload of " ++ file_path)
                       (g u)) u, Ok tt)).
  { unfold queue_upload, bind, get_self. rewrite H. reflexivity. }
  rewrite Heq. repeat split; reflexivity.
Qed.

(** C3, amended: [upload_and_get_link] never raises; when the handle is
    absent, the local file is missing, or creating the remote file, attaching
    the content, uploading, granting the permission or reading the link
    fails, the whole operation returns [None] and the failing call is the
    last thing it did (no retry).  Folder resolution never raises either: a
    failure inside it makes it return [None] as the folder id. *)
Theorem upload_and_get_link_failures (st : State) (file_path : string) :
  (exists st' v, upload_and_get_link file_path st = (st', Ok v))
  /\ (forall t, failure st file_path t ->
        exists st', upload_and_get_link file_path st = (st', Ok VNone)
                    /\ trace st' = t)
  /\ (exists st' v, _get_or_create_folder st = (st', Ok v))
  /\ (forall d, connected_with d st -> folder_fails d (world st) ->
        snd (_get_or_create_folder st) = Ok VNone).
Proof.
  split; [ | split; [ | split]].
  - apply returns_of_noraise, upload_and_get_link_noraise.
  - intros t. apply upload_and_get_link_failure.
  - apply returns_of_noraise, _get_or_create_folder_noraise.
  - intros d. apply _get_or_create_folder_failure.
Qed.

(** C6, amended: no exception of the provider SDK leaves [DriveManager]:
    [_initialize_drive], [get_drive] and the constructor always return.  When
    the exception comes from any call other than the loading of the
    credentials file, the handle is absent afterwards and [is_connected()] is
    false; when no such call raised, the session is connected. *)
Theorem initialization_failures_are_caught (st : State) :
  (exists st' evs,
      _initialize_drive st = (st', Ok tt)
      /\ trace st' = (trace st ++ evs)%list
      /\ (existsb fatal evs = true ->
          _drive st' = None /\ _authenticated st' = false
          /\ is_connected st' = false)
      /\ (existsb fatal evs = false -> is_connected st' = true))
  /\ (exists st' d, get_drive st = (st', Ok d))
  /\ (exists st', DriveManager_init st = (st', Ok tt)).
Proof.
  split; [ | split].
  - destruct (_initialize_drive_spec st) as (st' & evs & H1 & H2 & H3 & H4).
    exists st', evs. repeat split; try assumption.
    + apply H3; assumption.
    + apply H3; assumption.
    + unfold is_connected. destruct (H3 H) as [Hd Ha]. rewrite Ha. reflexivity.
    + intros H. destruct (H4 H) as (d & Hd & Ha).
      apply (connected_with_is_connected d). split; assumption.
  - apply returns_of_noraise, get_drive_noraise.
  - unfold DriveManager_init, bind, get_attr.
    destruct (negb (_authenticated st)).
    + destruct (_initialize_drive_spec st) as (st' & evs & H1 & _).
      exists st'. rewrite H1. reflexivity.
    + exists st. reflexivity.
Qed.

(** C7: on a connected session, when the remote service reports an existing
    PhotoBooth folder on both listings, two consecutive folder resolutions
    return the id of that folder, and the only calls they issue are the two
    listings: no folder is created. *)
Theorem folder_resolution_twice
  (st : State) (d : Drive) (w1 w2 : W) (folder : DriveFile)
  (others others' : list DriveFile) (id : pyval) :
  connected_with d st ->
  sdk_ListFile_GetList d folder_query (world st) = (w1, Ok (folder :: others)) ->
  sdk_ListFile_GetList d folder_query w1 = (w2, Ok (folder :: others')) ->
  dict_get folder "id" = Some id ->
  exists st1 st2,
    _get_or_create_folder st = (st1, Ok id)
    /\ _get_or_create_folder st1 = (st2, Ok id)
    /\ trace st2 = (trace st ++ [EvCall (C_ListFile folder_query) None;
                                 EvCall (C_ListFile folder_query) None])%list.
Proof.
  intros Hc H1 H2 Hid.
  assert (Hc1 : connected_with d
                  (add_event (EvCall (C_ListFile folder_query) None) (set_world w1 st)))
    by exact Hc.
  eexists; eexists. split; [ | split].
  - unfold _get_or_create_folder, try_except, bind.
    rewrite (get_drive_connected d st Hc). unfold ext, getitem.
    rewrite H1. simpl. rewrite Hid. reflexivity.
  - unfold _get_or_create_folder, try_except, bind.
    rewrite (get_drive_connected d _ Hc1). unfold ext, getitem. simpl.
    rewrite H2. simpl. rewrite Hid. reflexivity.
  - trace_done.
Qed.

(** C8: when the local file is not there at the moment [upload_and_get_link]
    looks for it, which is after it has obtained the handle, the operation
    returns [None] without raising, and the existence check is the last thing
    it does: no remote call follows.  On a connected session the moment of
    the check is the moment of the call. *)
Theorem upload_and_get_link_missing_file (st : State) (file_path : string) :
  (forall st1 handle,
      get_drive st = (st1, Ok handle) ->
      os_path_exists file_path (world st1) = false ->
      exists st',
        upload_and_get_link file_path st = (st', Ok VNone)
        /\ trace st' = (trace st1 ++ match handle with
                                     | Some _ => [EvExists file_path false]
                                     | None => []
                                     end)%list)
  /\ (is_connected st = true ->
      os_path_exists file_path (world st) = false ->
      exists st',
        upload_and_get_link file_path st = (st', Ok VNone)
        /\ trace st' = (trace st ++ [EvExists file_path false])%list).
Proof.
  assert (H : forall st1 handle,
      get_drive st = (st1, Ok handle) ->
      os_path_exists file_path (world st1) = false ->
      exists st',
        upload_and_get_link file_path st = (st', Ok VNone)
        /\ trace st' = (trace st1 ++ match handle with
                                     | Some _ => [EvExists file_path false]
                                     | None => []
                                     end)%list).
  { intros st1 [d|] Hg Hex.
    - apply upload_and_get_link_failure. eapply file_missing; eassumption.
    - rewrite app_nil_r. apply upload_and_get_link_failure.
      apply handle_absent; assumption. }
  split; [exact H | ].
  intros Hc Hex. destruct (is_connected_with st Hc) as [d Hd].
  apply (H st (Some d)); [apply get_drive_connected; exact Hd | exact Hex].
Qed.

(** ** The queue and the worker: invariants of every interleaving *)

(** The protocol of the worker, read off the trace: from [AtGet] an idle
    timeout of one second leads back to [AtGet], the poison pill leads to
    [Exited], a path [p] must be followed by the upload call on [p], that by
    [task_done], and only then is the worker back at [AtGet].  Events of the
    other thread and external calls are skipped; [None] says the trace broke
    the protocol. *)
Definition accept (s : option pc) (e : event) : option pc :=
  match e with
  | EvGet item =>
      match s with
      | Some AtGet =>
          match item with Some p => Some (AtUpload p) | None => Some Exited end
      | _ => None
      end
  | EvEmpty timeout =>
      match s with
      | Some AtGet => if Nat.eqb timeout 1 then Some AtGet else None
      | _ => None
      end
  | EvUploadFile p =>
      match s with
      | Some (AtUpload q) => if String.eqb p q then Some AtTaskDone else None
      | _ => None
      end
  | EvTaskDone =>
      match s with
      | Some AtTaskDone => Some AtGet
      | _ => None
      end
  | _ => s
  end.

Definition worker_protocol (t : list event) : option pc :=
  fold_left accept t (Some AtGet).

Lemma uploads_app t1 t2 : uploads (t1 ++ t2) = (uploads t1 ++ uploads t2)%list.
Proof.
  induction t1 as [|e t1 IH]; simpl; [reflexivity | ].
  destruct e; simpl; rewrite IH; reflexivity.
Qed.

Lemma puts_app t1 t2 : puts (t1 ++ t2) = (puts t1 ++ puts t2)%list.
Proof.
  induction t1 as [|e t1 IH]; simpl; [reflexivity | ].
  destruct e; simpl; rewrite IH; reflexivity.
Qed.

Lemma worker_protocol_app t e :
  worker_protocol (t ++ [e]) = accept (worker_protocol t) e.
Proof. unfold worker_protocol. rewrite fold_left_app. reflexivity. Qed.

Lemma quiet_uploads : quiet uploads.
Proof.
  intros t e He. rewrite uploads_app.
  destruct e; simpl in *; try discriminate; apply app_nil_r.
Qed.

Lemma quiet_puts : quiet puts.
Proof.
  intros t e He. rewrite puts_app.
  destruct e; simpl in *; try discriminate; apply app_nil_r.
Qed.

Lemma quiet_worker_protocol : quiet worker_protocol.
Proof.
  intros t e He. rewrite worker_protocol_app.
  destruct e; simpl in *; try discriminate; reflexivity.
Qed.

Definition history_ok (u : Uploader) : Prop :=
  let t := trace (g u) in
  match upload_thread u with
  | AtGet | AtTaskDone => (map Some (uploads t) ++ upload_queue u)%list = puts t
  | AtUpload p => (map Some (uploads t) ++ Some p :: upload_queue u)%list = puts t
  | Exited => (map Some (uploads t) ++ None :: upload_queue u)%list = puts t
  end.

Definition in_flight (p : pc) : nat :=
  match p with AtUpload _ | AtTaskDone => 1 | _ => 0 end.

Record uploader_ok (u : Uploader) : Prop := {
  ok_history : history_ok u;
  ok_protocol : worker_protocol (trace (g u)) = Some (upload_thread u);
  ok_counted : List.length (upload_queue u) + in_flight (upload_thread u)
               <= unfinished_tasks u
}.

Lemma uploader_ok_fresh (st : State) :
  trace st = [] -> uploader_ok (fresh_uploader st).
Proof.
  intros Ht. split; unfold history_ok; simpl; try rewrite Ht; simpl;
    try reflexivity; lia.
Qed.

Lemma history_ok_put item (st : State) q n p :
  history_ok (mkUploader st q n p) ->
  history_ok (mkUploader (add_event (EvPut item) st) (q ++ [item]) (S n) p).
Proof.
  unfold history_ok. simpl. rewrite uploads_app, puts_app. simpl.
  rewrite app_nil_r. intros H.
  destruct p; rewrite <- H; rewrite <- ?app_assoc; reflexivity.
Qed.

Lemma uploader_ok_put item (u : Uploader) :
  uploader_ok u -> uploader_ok (fst (put item u)).
Proof.
  intros [H1 H2 H3]. destruct u as [st q n p]. simpl in *. split; simpl.
  - apply history_ok_put. exact H1.
  - rewrite worker_protocol_app. simpl. exact H2.
  - rewrite List.length_app. simpl. lia.
Qed.

(** A change of [g] that leaves the three projections alone keeps the
    invariant. *)
Lemma uploader_ok_set_g (u : Uploader) (st : State) :
  uploads (trace st) = uploads (trace (g u)) ->
  puts (trace st) = puts (trace (g u)) ->
  worker_protocol (trace st) = worker_protocol (trace (g u)) ->
  uploader_ok u -> uploader_ok (set_g st u).
Proof.
  intros Hu Hp Hw [H1 H2 H3]. split.
  - unfold history_ok in *. simpl. rewrite Hu, Hp. exact H1.
  - simpl. rewrite Hw. exact H2.
  - exact H3.
Qed.

Lemma uploader_ok_queue_upload p (u : Uploader) :
  uploader_ok u -> uploader_ok (fst (queue_upload p u)).
Proof.
  intros H. unfold queue_upload, bind, get_self.
  destruct (is_connected (g u)); simpl.
  - pose proof (uploader_ok_put (Some p) u H) as H'.
    destruct u as [st q n t]. simpl in *.
    apply (uploader_ok_set_g (mkUploader _ _ _ _)); simpl; auto.
  - apply uploader_ok_set_g; auto.
Qed.

Lemma uploader_ok_stop (u : Uploader) :
  uploader_ok u -> uploader_ok (fst (stop u)).
Proof.
  intros H. unfold stop, bind, get_self.
  pose proof (uploader_ok_put None u H) as H'.
  destruct u as [st q n t]. simpl in *.
  destruct (is_alive _); simpl; [ | exact H'].
  apply (uploader_ok_set_g (mkUploader _ _ _ _)); simpl; auto.
  - rewrite uploads_app. simpl. apply app_nil_r.
  - rewrite puts_app. simpl. apply app_nil_r.
  - rewrite worker_protocol_app. reflexivity.
Qed.

Lemma uploader_ok_link p (u : Uploader) :
  uploader_ok u -> uploader_ok (fst (lift (upload_and_get_link p) u)).
Proof.
  intros H. unfold lift.
  pose proof (quiet_upload_and_get_link uploads quiet_uploads p (g u)) as Hu.
  pose proof (quiet_upload_and_get_link puts quiet_puts p (g u)) as Hp.
  pose proof (quiet_upload_and_get_link worker_protocol quiet_worker_protocol p (g u)) as Hw.
  destruct (upload_and_get_link p (g u)) as [st' r]. simpl in *.
  apply uploader_ok_set_g; assumption.
Qed.

Lemma _upload_file_returns p (st : State) :
  exists st' b, _upload_file p st = (st', Ok b).
Proof. apply returns_of_noraise, _upload_file_noraise. Qed.

Lemma uploader_ok_worker_step (u : Uploader) :
  uploader_ok u -> uploader_ok (worker_step u).
Proof.
  intros [H1 H2 H3]. destruct u as [st q n t]. unfold worker_step. simpl in *.
  destruct t as [ | p | | ].
  - (* AtGet *)
    destruct q as [ | [p | ] q ]; split; unfold history_ok in *; simpl in *;
      rewrite ?uploads_app, ?puts_app, ?worker_protocol_app, ?H2; simpl;
      rewrite ?app_nil_r in *; try assumption; try reflexivity; lia.
  - (* AtUpload p *)
    set (st0 := add_event (EvUploadFile p) st).
    pose proof (quiet_upload_file uploads quiet_uploads p st0) as Hu.
    pose proof (quiet_upload_file puts quiet_puts p st0) as Hp.
    pose proof (quiet_upload_file worker_protocol quiet_worker_protocol p st0) as Hw.
    destruct (_upload_file_returns p st0) as (st' & b & Heq).
    rewrite Heq in *. simpl in *.
    split; unfold history_ok in *; simpl in *.
    + rewrite Hu, Hp, uploads_app, puts_app. simpl. rewrite app_nil_r.
      rewrite map_app. simpl. rewrite <- app_assoc. exact H1.
    + rewrite Hw, worker_protocol_app, H2. simpl. rewrite String.eqb_refl.
      reflexivity.
    + exact H3.
  - (* AtTaskDone *)
    destruct n as [ | n]; [simpl in H3; lia | ].
    split; unfold history_ok in *; simpl in *;
      rewrite ?uploads_app, ?puts_app, ?worker_protocol_app, ?H2; simpl;
      rewrite ?app_nil_r; try assumption; try reflexivity; lia.
  - (* Exited *)
    split; assumption.
Qed.

Lemma uploader_ok_step a (u : Uploader) :
  uploader_ok u -> uploader_ok (step a u).
Proof.
  destruct a; simpl.
  - apply uploader_ok_queue_upload.
  - apply uploader_ok_link.
  - apply uploader_ok_stop.
  - apply uploader_ok_worker_step.
Qed.

Lemma uploader_ok_run schedule (u : Uploader) :
  uploader_ok u -> uploader_ok (run schedule u).
Proof.
  revert u. induction schedule as [ | a schedule IH]; intros u H; simpl.
  - exact H.
  - apply IH, uploader_ok_step, H.
Qed.

Lemma run_app s1 s2 (u : Uploader) : run (s1 ++ s2) u = run s2 (run s1 u).
Proof. unfold run. apply fold_left_app. Qed.

(** What [stop] does to an uploader. *)
Lemma stop_spec (u : Uploader) :
  snd (stop u) = Ok tt
  /\ upload_queue (fst (stop u)) = (upload_queue u ++ [None])%list
  /\ upload_thread (fst (stop u)) = upload_thread u
  /\ trace (g (fst (stop u)))
     = (trace (g u) ++ EvPut None :: (if is_alive u then [EvJoin 5] else []))%list.
Proof.
  unfold stop, bind, get_self, put, join, lift, is_alive. simpl.
  destruct (upload_thread u); simpl; rewrite <- ?app_assoc; repeat split; reflexivity.
Qed.

Lemma worker_puts_nothing (u : Uploader) :
  puts (trace (g (worker_step u))) = puts (trace (g u)).
Proof.
  unfold worker_step. destruct (upload_thread u) as [ | p | | ].
  - destruct (upload_queue u) as [ | [p | ] q]; simpl; rewrite puts_app;
      apply app_nil_r.
  - set (st0 := add_event (EvUploadFile p) (g u)).
    pose proof (quiet_upload_file puts quiet_puts p st0) as Hp.
    destruct (_upload_file p st0) as [st' [b | e]]; simpl in *; rewrite Hp;
      unfold st0; simpl; rewrite puts_app; apply app_nil_r.
  - destruct (unfinished_tasks u); simpl; [reflexivity | ].
    rewrite puts_app; apply app_nil_r.
  - reflexivity.
Qed.

(** The history of puts only grows. *)
Lemma puts_extends_step a (u : Uploader) :
  exists more, puts (trace (g (step a u))) = (puts (trace (g u)) ++ more)%list.
Proof.
  destruct a as [p | p | | ]; simpl.
  - unfold queue_upload, bind, get_self. destruct (is_connected (g u)); simpl.
    + exists [Some p]. rewrite puts_app. reflexivity.
    + exists []. rewrite app_nil_r. reflexivity.
  - exists []. rewrite app_nil_r. unfold lift.
    pose proof (quiet_upload_and_get_link puts quiet_puts p (g u)) as Hp.
    destruct (upload_and_get_link p (g u)) as [st' r]. exact Hp.
  - destruct (stop_spec u) as (_ & _ & _ & Ht). rewrite Ht, puts_app. simpl.
    exists [None]. destruct (is_alive u); reflexivity.
  - exists []. rewrite app_nil_r. apply worker_puts_nothing.
Qed.

Lemma puts_extends_run schedule (u : Uploader) :
  exists more, puts (trace (g (run schedule u))) = (puts (trace (g u)) ++ more)%list.
Proof.
  revert u. induction schedule as [ | a schedule IH]; intros u; simpl.
  - exists []. rewrite app_nil_r. reflexivity.
  - destruct (IH (step a u)) as [m1 H1]. destruct (puts_extends_step a u) as [m2 H2].
    exists (m2 ++ m1)%list. rewrite H1, H2, app_assoc. reflexivity.
Qed.

Lemma history_prefix (u : Uploader) :
  history_ok u ->
  exists tail, (map Some (uploads (trace (g u))) ++ tail)%list = puts (trace (g u)).
Proof.
  unfold history_ok. destruct (upload_thread u); intros H; eexists; exact H.
Qed.

Lemma prefix_before_sentinel (l : list string) tail items more :
  (map Some l ++ tail)%list = (items ++ None :: more)%list ->
  exists rest, (l ++ rest)%list = before_sentinel items.
Proof.
  revert items. induction l as [ | p l IH]; intros items H; simpl in *.
  - exists (before_sentinel items). reflexivity.
  - destruct items as [ | [q | ] items]; simpl in H; try discriminate.
    injection H as Hpq H. subst q. destruct (IH items H) as [rest Hrest].
    exists rest. simpl. rewrite Hrest. reflexivity.
Qed.

Lemma prefix_of_paths (l : list string) tail paths :
  (map Some l ++ tail)%list = map Some paths ->
  exists rest, (l ++ rest)%list = paths.
Proof.
  revert paths. induction l as [ | p l IH]; intros paths H; simpl in *.
  - exists paths. reflexivity.
  - destruct paths as [ | q paths]; simpl in H; try discriminate.
    injection H as Hpq H. subst q. destruct (IH paths H) as [rest Hrest].
    exists rest. rewrite Hrest. reflexivity.
Qed.

Lemma map_Some_inj (l1 l2 : list string) : map Some l1 = map Some l2 -> l1 = l2.
Proof.
  revert l2. induction l1 as [ | a l1 IH]; intros [ | b l2] H; simpl in H;
    try discriminate; [reflexivity | ].
  injection H as Hab H. subst b. rewrite (IH l2 H). reflexivity.
Qed.

Lemma no_sentinel_in_paths (a b : list (option string)) paths :
  (a ++ None :: b)%list = map Some paths -> False.
Proof.
  intros H. assert (Hin : In None (map Some paths)).
  { rewrite <- H. apply in_or_app. right. left. reflexivity. }
  apply in_map_iff in Hin. destruct Hin as (x & Hx & _). discriminate Hx.
Qed.

(** ** Feeding a connected uploader that is never stopped *)

Fixpoint enqueued (schedule : list action) : list string :=
  match schedule with
  | [] => []
  | QueueUpload p :: rest => p :: enqueued rest
  | _ :: rest => enqueued rest
  end.

Definition no_stop (a : action) : bool :=
  match a with Stop => false | _ => true end.

Record feeding (paths : list string) (u : Uploader) : Prop := {
  feed_connected : is_connected (g u) = true;
  feed_puts : puts (trace (g u)) = map Some paths;
  feed_ok : uploader_ok u
}.

Lemma connected_after_link p (st : State) :
  is_connected st = true -> is_connected (fst (upload_and_get_link p st)) = true.
Proof.
  intros H. destruct (is_connected_with st H) as [d Hd].
  apply (connected_with_is_connected d).
  apply (preserves_upload_and_get_link (connected_with d));
    auto using stable_connected_with, get_drive_keeps_connected.
Qed.

Lemma connected_after_upload_file p (st : State) :
  is_connected st = true -> is_connected (fst (_upload_file p st)) = true.
Proof.
  intros H. destruct (is_connected_with st H) as [d Hd].
  apply (connected_with_is_connected d).
  apply (preserves_upload_file (connected_with d));
    auto using stable_connected_with, get_drive_keeps_connected.
Qed.

Lemma connected_after_step a (u : Uploader) :
  is_connected (g u) = true -> is_connected (g (step a u)) = true.
Proof.
  intros H. destruct a as [p | p | | ]; simpl.
  - unfold queue_upload, bind, get_self. rewrite H. simpl. exact H.
  - unfold lift. pose proof (connected_after_link p (g u) H) as H'.
    destruct (upload_and_get_link p (g u)); exact H'.
  - unfold stop, bind, get_self, put, join, lift, is_alive. simpl.
    destruct (upload_thread u); exact H.
  - unfold worker_step. destruct (upload_thread u) as [ | p | | ].
    + destruct (upload_queue u) as [ | [p | ] q]; exact H.
    + pose proof (connected_after_upload_file p (add_event (EvUploadFile p) (g u)) H) as H'.
      destruct (_upload_file p _) as [st' [b | e]]; exact H'.
    + destruct (unfinished_tasks u); exact H.
    + exact H.
Qed.

Lemma feeding_step a paths (u : Uploader) :
  no_stop a = true -> feeding paths u ->
  feeding (paths ++ enqueued [a]) (step a u).
Proof.
  intros Ha [Hc Hp Hok]. split.
  - apply connected_after_step, Hc.
  - destruct a as [p | p | | ]; try discriminate Ha; simpl.
    + unfold queue_upload, bind, get_self. rewrite Hc. simpl.
      rewrite puts_app, Hp, map_app. reflexivity.
    + rewrite app_nil_r, <- Hp. unfold lift.
      pose proof (quiet_upload_and_get_link puts quiet_puts p (g u)) as Hq.
      destruct (upload_and_get_link p (g u)); exact Hq.
    + rewrite app_nil_r, <- Hp. apply worker_puts_nothing.
  - apply uploader_ok_step, Hok.
Qed.

Lemma feeding_run schedule paths (u : Uploader) :
  forallb no_stop schedule = true -> feeding paths u ->
  feeding (paths ++ enqueued schedule) (run schedule u).
Proof.
  revert paths u. induction schedule as [ | a schedule IH]; intros paths u Hs Hf.
  - simpl. rewrite app_nil_r. exact Hf.
  - simpl in Hs. apply andb_prop in Hs. destruct Hs as [Ha Hs].
    change (run (a :: schedule) u) with (run schedule (step a u)).
    replace (paths ++ enqueued (a :: schedule))%list
      with ((paths ++ enqueued [a]) ++ enqueued schedule)%list.
    + apply IH; [exact Hs | apply feeding_step; assumption].
    + rewrite <- app_assoc. f_equal. destruct a; reflexivity.
Qed.

(** How far the worker is from an empty queue. *)
Definition weight (u : Uploader) : nat :=
  3 * List.length (upload_queue u)
  + match upload_thread u with AtUpload _ => 2 | AtTaskDone => 1 | _ => 0 end.

Lemma feeding_alive paths (u : Uploader) :
  feeding paths u ->
  upload_thread u <> Exited /\ forall q, upload_queue u <> None :: q.
Proof.
  intros [_ Hp [Hh _ _]]. unfold history_ok in Hh. rewrite Hp in Hh. split.
  - intros He. rewrite He in Hh. exact (no_sentinel_in_paths _ _ _ Hh).
  - intros q Hq. rewrite Hq in Hh.
    destruct (upload_thread u).
    + exact (no_sentinel_in_paths _ _ _ Hh).
    + apply (no_sentinel_in_paths (map Some (uploads (trace (g u))) ++ [Some file_path]) q paths).
      rewrite <- app_assoc. exact Hh.
    + exact (no_sentinel_in_paths _ _ _ Hh).
    + apply (no_sentinel_in_paths (map Some (uploads (trace (g u))) ++ [None]) q paths).
      rewrite <- app_assoc. exact Hh.
Qed.

Lemma worker_step_weight paths (u : Uploader) :
  feeding paths u -> weight (worker_step u) = pred (weight u).
Proof.
  intros Hf. destruct (feeding_alive paths u Hf) as [Halive Hq].
  destruct Hf as [_ _ [_ _ Hn]].
  destruct u as [st q n t]. unfold weight, worker_step. simpl in *.
  destruct t as [ | p | | ].
  - destruct q as [ | [p | ] q]; simpl.
    + reflexivity.
    + lia.
    + exfalso. apply (Hq q). reflexivity.
  - destruct (_upload_file_returns p (add_event (EvUploadFile p) st))
      as (st' & b & Heq).
    rewrite Heq. simpl. lia.
  - destruct n; simpl in *; lia.
  - exfalso. apply Halive. reflexivity.
Qed.

Lemma drain paths n (u : Uploader) :
  feeding paths u -> weight u <= n ->
  feeding paths (run (repeat WorkerStep n) u)
  /\ weight (run (repeat WorkerStep n) u) = 0.
Proof.
  revert u. induction n as [ | n IH]; intros u Hf Hw; simpl.
  - split; [exact Hf | lia].
  - change (run (WorkerStep :: repeat WorkerStep n) u)
      with (run (repeat WorkerStep n) (step WorkerStep u)).
    apply IH.
    + pose proof (feeding_step WorkerStep paths u eq_refl Hf) as H.
      simpl in H. rewrite app_nil_r in H. exact H.
    + simpl. rewrite (worker_step_weight paths u Hf). lia.
Qed.

Lemma weight_bound paths (u : Uploader) :
  feeding paths u -> weight u <= 3 * List.length paths + 1.
Proof.
  intros [_ Hp [Hh _ _]]. unfold history_ok in Hh. rewrite Hp in Hh.
  unfold weight.
  destruct (upload_thread u); apply (f_equal (@List.length _)) in Hh;
    rewrite List.length_app, !List.length_map in Hh; simpl in Hh; lia.
Qed.

(** ** Claims about the queue and the worker *)

(** C1: on a connected session whose uploader is not stopped, whatever the
    interleaving of the two threads, the paths the worker has called
    [_upload_file] on are at every moment a prefix of the paths enqueued with
    [queue_upload], in the same order; and once the worker has been given
    enough steps, they are exactly the enqueued paths, in enqueue order. *)
Theorem uploads_are_fifo (st : State) (schedule : list action) :
  is_connected st = true ->
  trace st = [] ->
  forallb no_stop schedule = true ->
  (exists rest,
      (uploads (trace (g (run schedule (fresh_uploader st)))) ++ rest)%list
      = enqueued schedule)
  /\ (forall n,
         3 * List.length (enqueued schedule) + 1 <= n ->
         uploads (trace (g (run (schedule ++ repeat WorkerStep n) (fresh_uploader st))))
         = enqueued schedule).
Proof.
  intros Hc Ht Hs.
  assert (Hf0 : feeding [] (fresh_uploader st)).
  { split; simpl; [exact Hc | rewrite Ht; reflexivity | apply uploader_ok_fresh, Ht]. }
  pose proof (feeding_run schedule [] _ Hs Hf0) as Hf. simpl in Hf.
  split.
  - destruct Hf as [_ Hp [Hh _ _]].
    destruct (history_prefix _ Hh) as [tail Htail]. rewrite Hp in Htail.
    exact (prefix_of_paths _ _ _ Htail).
  - intros n Hn. rewrite run_app.
    destruct (drain _ n _ Hf) as [Hf' Hw].
    { pose proof (weight_bound _ _ Hf). lia. }
    destruct (feeding_alive _ _ Hf') as [Halive _].
    destruct Hf' as [_ Hp [Hh _ _]]. unfold history_ok in Hh. unfold weight in Hw.
    destruct (upload_queue (run (repeat WorkerStep n) (run schedule (fresh_uploader st))))
      as [ | x q]; [ | simpl in Hw; lia].
    destruct (upload_thread (run (repeat WorkerStep n) (run schedule (fresh_uploader st))));
      simpl in Hw; try lia; [ | contradiction Halive; reflexivity].
    rewrite app_nil_r, Hp in Hh. apply map_Some_inj, Hh.
Qed.

(** C4: [stop()] returns normally after putting the sentinel at the end of
    the queue and, if the worker is alive, joining it with a timeout of five
    seconds; it does not touch the worker.  From then on, whatever is
    enqueued and however long the worker runs, every path the worker ever
    calls [_upload_file] on was put on the queue before the call of [stop]
    (and before any earlier sentinel): nothing enqueued after it is
    processed. *)
Theorem stop_ends_processing
  (w : W) (drive : option Drive) (authenticated : bool) (out : list string)
  (before after : list action) :
  let u1 := run before (fresh_uploader (mkState w drive authenticated out [])) in
  let u2 := step Stop u1 in
  let u3 := run after u2 in
  snd (stop u1) = Ok tt
  /\ upload_queue u2 = (upload_queue u1 ++ [None])%list
  /\ upload_thread u2 = upload_thread u1
  /\ trace (g u2)
     = (trace (g u1) ++ EvPut None :: (if is_alive u1 then [EvJoin 5] else []))%list
  /\ exists rest,
       (uploads (trace (g u3)) ++ rest)%list = before_sentinel (puts (trace (g u1))).
Proof.
  intros u1 u2 u3.
  destruct (stop_spec u1) as (H1 & H2 & H3 & H4).
  repeat (split; [assumption | ]).
  assert (Hok : uploader_ok u3).
  { apply uploader_ok_run, uploader_ok_step, uploader_ok_run, uploader_ok_fresh.
    reflexivity. }
  destruct (history_prefix _ (ok_history _ Hok)) as [tail Htail].
  destruct (puts_extends_run after u2) as [more Hmore].
  fold u3 in Hmore. rewrite Hmore in Htail.
  unfold u2 in Htail. simpl in Htail. rewrite H4, puts_app in Htail. simpl in Htail.
  replace (puts (if is_alive u1 then [EvJoin 5] else [])) with (@nil (option string))
    in Htail by (destruct (is_alive u1); reflexivity).
  rewrite <- app_assoc in Htail. simpl in Htail.
  exact (prefix_before_sentinel _ _ _ _ Htail).
Qed.

(** C5: in every interleaving the worker follows its protocol.  Dequeuing
    the sentinel makes it leave the loop, and an exited worker does nothing
    more; dequeuing a real path is followed by one call of [_upload_file] on
    that path, then by [task_done], and only then by the next dequeue; on an
    empty queue [get] waits out its one-second timeout and the loop starts
    over with nothing else done. *)
Theorem worker_loop_protocol
  (w : W) (drive : option Drive) (authenticated : bool) (out : list string)
  (schedule : list action) :
  (let u := run schedule (fresh_uploader (mkState w drive authenticated out [])) in
   worker_protocol (trace (g u)) = Some (upload_thread u))
  /\ (forall (st : State) q n,
         worker_step (mkUploader st (None :: q) n AtGet)
         = mkUploader (add_event (EvGet None) st) q n Exited
         /\ worker_step (mkUploader st q n Exited) = mkUploader st q n Exited)
  /\ (forall (st : State) p q n,
         exists st' b,
           _upload_file p (add_event (EvUploadFile p)
                                     (add_event (EvGet (Some p)) st)) = (st', Ok b)
           /\ run [WorkerStep; WorkerStep; WorkerStep]
                  (mkUploader st (Some p :: q) (S n) AtGet)
              = mkUploader (add_event EvTaskDone st') q n AtGet
           /\ uploads (trace (add_event EvTaskDone st'))
              = (uploads (trace st) ++ [p])%list)
  /\ (forall (st : State) n,
         worker_step (mkUploader st [] n AtGet)
         = mkUploader (add_event (EvEmpty 1) st) [] n AtGet).
Proof.
  split; [ | split; [ | split]].
  - intros u. apply ok_protocol, uploader_ok_run, uploader_ok_fresh. reflexivity.
  - intros st q n. split; reflexivity.
  - intros st p q n.
    destruct (_upload_file_returns p
                (add_event (EvUploadFile p) (add_event (EvGet (Some p)) st)))
      as (st' & b & Heq).
    exists st', b. split; [exact Heq | split].
    + unfold run. simpl. unfold worker_step at 2. simpl. rewrite Heq. reflexivity.
    + pose proof (quiet_upload_file uploads quiet_uploads p
                    (add_event (EvUploadFile p) (add_event (EvGet (Some p)) st))) as Hu.
      rewrite Heq in Hu. simpl in Hu. simpl. rewrite uploads_app, Hu.
      rewrite !uploads_app. simpl. rewrite !app_nil_r. reflexivity.
  - intros st n. reflexivity.
Qed.

(** ** The files a session leaves *)

Definition derived_suffixes : list string := ["_cutout"; "_composited"; "_raw"].

(** The naming rule, read along the file writes of a trace.  The state is the
    number of raw captures written so far and whether [final_images] has been
    created.  A raw capture must be [photo_<c>.png] for the current count
    [c], which a call that returns increments; a derived image must go, after
    one capture at least and after the folder was created, to
    [final_images/photo_<c><suffix>.png] for the current count [c] and one of
    the three suffixes; [None] says the rule was broken. *)
Definition file_rule (s : option (nat * bool)) (op : fileop) : option (nat * bool) :=
  match s with
  | None => None
  | Some (c, made) =>
      match op with
      | Imwrite f returned =>
          if String.eqb f (raw_name c)
          then Some (if returned then S c else c, made) else None
      | Makedirs d returned =>
          if String.eqb d output_folder then Some (c, made || returned) else None
      | Save _ p =>
          if Nat.ltb 0 c && made
             && existsb (fun suffix =>
                           String.eqb p (path_join output_folder (final_name c suffix)))
                        derived_suffixes
          then Some (c, made) else None
      end
  end.

Definition naming_rule (ops : list fileop) : option (nat * bool) :=
  fold_left file_rule ops (Some (0, false)).

(** What one callback may write, given the counter and the session id it
    starts with. *)
Definition written_by (counter sid : nat) (op : fileop) : Prop :=
  match op with
  | Imwrite f _ => f = raw_name counter
  | Makedirs d _ => d = output_folder
  | Save _ p =>
      exists suffix, In suffix derived_suffixes
                     /\ p = path_join output_folder (final_name sid suffix)
  end.

Lemma fileops_app t1 t2 : fileops (t1 ++ t2) = (fileops t1 ++ fileops t2)%list.
Proof.
  induction t1 as [ | e t1 IH]; simpl; [reflexivity | ].
  destruct e as [c exc | | | | | | | ]; simpl; try exact IH.
  destruct c; simpl; rewrite ?IH; reflexivity.
Qed.

Lemma quiet_fileops : quiet fileops.
Proof.
  intros t e He. rewrite fileops_app.
  destruct e as [c exc | | | | | | | ]; simpl in *; try discriminate;
    try apply app_nil_r.
  destruct c; simpl in *; try discriminate; apply app_nil_r.
Qed.

Lemma fileops_queue_upload p (u : Uploader) :
  fileops (trace (g (fst (queue_upload p u)))) = fileops (trace (g u)).
Proof.
  unfold queue_upload, bind, get_self. destruct (is_connected (g u)); simpl.
  - rewrite fileops_app. apply app_nil_r.
  - reflexivity.
Qed.

Lemma fileops_stop (u : Uploader) :
  fileops (trace (g (fst (stop u)))) = fileops (trace (g u)).
Proof.
  destruct (stop_spec u) as (_ & _ & _ & Ht). rewrite Ht, fileops_app.
  destruct (is_alive u); apply app_nil_r.
Qed.

Lemma fileops_worker_step (u : Uploader) :
  fileops (trace (g (worker_step u))) = fileops (trace (g u)).
Proof.
  unfold worker_step. destruct (upload_thread u) as [ | p | | ].
  - destruct (upload_queue u) as [ | [p | ] q]; simpl; rewrite fileops_app;
      apply app_nil_r.
  - set (st0 := add_event (EvUploadFile p) (g u)).
    pose proof (quiet_upload_file fileops quiet_fileops p st0) as Hp.
    destruct (_upload_file p st0) as [st' [b | e]]; simpl in *; rewrite Hp;
      unfold st0; simpl; rewrite fileops_app; apply app_nil_r.
  - destruct (unfinished_tasks u); simpl; [reflexivity | ].
    rewrite fileops_app; apply app_nil_r.
  - reflexivity.
Qed.

(** *** The view of a booth: its file writes and its attributes *)

Record View : Type := mkView {
  v_ops : list fileop;
  v_counter : nat;
  v_sid : nat;
  v_captured : option string;
  v_no_bg : option image;
  v_composited : option (option image);
  v_raw : option (option image);
  v_frame : option (list Button)
}.

Definition view (b : Booth) : View :=
  mkView (fileops (booth_trace b)) (img_counter b) (save_session_id b)
         (last_captured b) (last_no_bg b) (last_composited b) (last_raw b)
         (bg_thumb_frame b).

(** A triple on views: from any booth with view [v], [m] ends in a booth
    whose view and result satisfy [P]. *)
Definition vt {A} (v : View) (m : M Booth A) (P : View -> res A -> Prop) : Prop :=
  forall b, view b = v -> P (view (fst (m b))) (snd (m b)).

Lemma vt_ret {A} v (a : A) P : P v (Ok a) -> vt v (ret a) P.
Proof. intros H b Hb. simpl. rewrite Hb. exact H. Qed.

Lemma vt_raise {A} v e (P : View -> res A -> Prop) :
  P v (Raise e) -> vt v (raise e) P.
Proof. intros H b Hb. simpl. rewrite Hb. exact H. Qed.

Lemma vt_bind {A B} v (m : M Booth A) (k : A -> M Booth B) P :
  vt v m (fun v' r => match r with
                      | Ok a => vt v' (k a) P
                      | Raise e => P v' (Raise e)
                      end) ->
  vt v (bind m k) P.
Proof.
  intros H b Hb. specialize (H b Hb). unfold bind.
  destruct (m b) as [b' [a | e]]; simpl in *; [apply H; reflexivity | exact H].
Qed.

Lemma vt_try {A} v (m : M Booth A) (h : exn -> M Booth A) P :
  vt v m (fun v' r => match r with
                      | Ok a => P v' (Ok a)
                      | Raise e => vt v' (h e) P
                      end) ->
  vt v (try_except m h) P.
Proof.
  intros H b Hb. specialize (H b Hb). unfold try_except.
  destruct (m b) as [b' [a | e]]; simpl in *; [exact H | apply H; reflexivity].
Qed.

Lemma vt_self {A} v (f : Booth -> A) (fv : View -> A) (P : View -> res A -> Prop) :
  (forall b, f b = fv (view b)) -> P v (Ok (fv v)) -> vt v (self f) P.
Proof. intros Hf H b Hb. simpl. rewrite Hf, Hb. exact H. Qed.

Lemma vt_assign v (f : Booth -> Booth) (fv : View -> View)
      (P : View -> res unit -> Prop) :
  (forall b, view (f b) = fv (view b)) -> P (fv v) (Ok tt) -> vt v (assign f) P.
Proof. intros Hf H b Hb. simpl. rewrite Hf, Hb. exact H. Qed.

(** A computation on the process state that writes no file. *)
Lemma vt_quiet {A} v (m : M State A) (P : View -> res A -> Prop) :
  (forall st, fileops (trace (fst (m st))) = fileops (trace st)) ->
  (forall r, P v r) -> vt v (liftS m) P.
Proof.
  intros Hm H b Hb. unfold liftS, liftU, lift.
  specialize (Hm (g (uploader b))).
  destruct (m (g (uploader b))) as [st' r]. simpl in *.
  replace (view _) with v; [apply H | ].
  rewrite <- Hb. unfold view, booth_trace. simpl. rewrite Hm. reflexivity.
Qed.

Definition v_add (op : fileop) (v : View) : View :=
  mkView (v_ops v ++ [op]) (v_counter v) (v_sid v) (v_captured v) (v_no_bg v)
         (v_composited v) (v_raw v) (v_frame v).

(** An external call that writes a file. *)
Lemma vt_fileop {A} v c (f : W -> W * res A) (op : bool -> fileop)
      (P : View -> res A -> Prop) :
  (forall exc, fileops [EvCall c exc] = [op (is_None exc)]) ->
  (forall r, P (v_add (op (is_Ok r)) v) r) -> vt v (liftS (ext c f)) P.
Proof.
  intros Hc H b Hb. unfold liftS, liftU, lift, ext.
  destruct (f (world (g (uploader b)))) as [w' r]. simpl.
  replace (view _) with (v_add (op (is_Ok r)) v); [apply H | ].
  rewrite <- Hb. unfold view, v_add, booth_trace. simpl.
  rewrite fileops_app, Hc. destruct r; reflexivity.
Qed.

Lemma vt_ext_quiet {A} v c (f : W -> W * res A) (P : View -> res A -> Prop) :
  (forall exc, fileops [EvCall c exc] = []) ->
  (forall r, P v r) -> vt v (liftS (ext c f)) P.
Proof.
  intros Hc H. apply vt_quiet; [ | exact H].
  intros st. unfold ext. destruct (f (world st)) as [w' r]. simpl.
  rewrite fileops_app, Hc. apply app_nil_r.
Qed.

Lemma vt_queue_upload v p (P : View -> res unit -> Prop) :
  (forall r, P v r) -> vt v (liftU (queue_upload p)) P.
Proof.
  intros H b Hb. unfold liftU.
  pose proof (fileops_queue_upload p (uploader b)) as Hq.
  destruct (queue_upload p (uploader b)) as [u' r]. simpl in *.
  replace (view _) with v; [apply H | ].
  rewrite <- Hb. unfold view, booth_trace. simpl. rewrite Hq. reflexivity.
Qed.

Lemma vt_print v line (P : View -> res unit -> Prop) :
  P v (Ok tt) -> vt v (liftS (print line)) P.
Proof.
  intros H b Hb. unfold liftS, liftU, lift, print. simpl.
  change (P (view b) (Ok tt)). rewrite Hb. exact H.
Qed.

Lemma vt_stop v (P : View -> res unit -> Prop) :
  (forall r, P v r) -> vt v (liftU stop) P.
Proof.
  intros H b Hb. unfold liftU.
  pose proof (fileops_stop (uploader b)) as Hq.
  destruct (stop (uploader b)) as [u' r]. simpl in *.
  replace (view _) with v; [apply H | ].
  rewrite <- Hb. unfold view, booth_trace. simpl. rewrite Hq. reflexivity.
Qed.

(** *** The naming rule, one write at a time *)

Lemma rule_snoc ops op (s s' : nat * bool) :
  naming_rule ops = Some s -> file_rule (Some s) op = Some s' ->
  naming_rule (ops ++ [op]) = Some s'.
Proof.
  intros H1 H2. unfold naming_rule in *. rewrite fold_left_app, H1. exact H2.
Qed.

Lemma rule_imwrite c made returned :
  file_rule (Some (c, made)) (Imwrite (raw_name c) returned)
  = Some (if returned then S c else c, made).
Proof. unfold file_rule. rewrite String.eqb_refl. reflexivity. Qed.

Lemma rule_makedirs c made returned :
  file_rule (Some (c, made)) (Makedirs output_folder returned)
  = Some (c, made || returned).
Proof. reflexivity. Qed.

Lemma rule_save n made img suffix :
  In suffix derived_suffixes ->
  file_rule (Some (S n, made || true))
            (Save img (path_join output_folder (final_name (S n) suffix)))
  = Some (S n, made || true).
Proof.
  intros Hin. unfold file_rule. rewrite orb_true_r.
  replace (existsb _ derived_suffixes) with true; [reflexivity | ].
  symmetry. apply existsb_exists. exists suffix. split; [exact Hin | ].
  apply String.eqb_refl.
Qed.

Definition captures_ok (v : View) : Prop :=
  match v_counter v with
  | O =>
      v_captured v = None /\ v_no_bg v = None
      /\ truthy_attr (v_composited v) = None
      /\ truthy_attr (v_raw v) = None
      /\ v_frame v = None
  | S n =>
      v_sid v = S n /\ v_captured v = Some (raw_name n)
  end.

Record view_ok (v : View) : Prop := {
  ok_files : exists made, naming_rule (v_ops v) = Some (v_counter v, made);
  ok_captures : captures_ok v
}.

(** One callback, from view [v] to view [v']: the invariant holds again and
    the files written follow the counter and session id of [v]. *)
Record step_ok (v v' : View) : Prop := {
  step_view : view_ok v';
  step_writes : exists ops,
      v_ops v' = (v_ops v ++ ops)%list
      /\ Forall (written_by (v_counter v) (v_sid v)) ops
}.

Tactic Notation "vsimpl" :=
  cbn [v_add v_ops v_counter v_sid v_captured v_no_bg v_composited v_raw v_frame
       is_Ok is_None truthy_attr].
Tactic Notation "vsimpl" "in" hyp(H) :=
  cbn [v_add v_ops v_counter v_sid v_captured v_no_bg v_composited v_raw v_frame
       is_Ok is_None truthy_attr] in H.

Ltac vstep :=
  lazymatch goal with
  | |- vt _ (bind _ _) _ => apply vt_bind
  | |- vt _ (try_except _ _) _ => apply vt_try
  | |- vt _ (ret _) _ => apply vt_ret
  | |- vt _ (raise _) _ => apply vt_raise
  | |- vt _ (self img_counter) _ =>
      apply (vt_self _ _ v_counter); [reflexivity | ]
  | |- vt _ (self save_session_id) _ =>
      apply (vt_self _ _ v_sid); [reflexivity | ]
  | |- vt _ (self last_composited) _ =>
      apply (vt_self _ _ v_composited); [reflexivity | ]
  | |- vt _ (self last_no_bg) _ =>
      apply (vt_self _ _ v_no_bg); [reflexivity | ]
  | |- vt _ (self last_raw) _ =>
      apply (vt_self _ _ v_raw); [reflexivity | ]
  | |- vt _ (assign (set_img_counter ?n)) _ =>
      apply (vt_assign _ _ (fun v => mkView (v_ops v) n (v_sid v) (v_captured v)
               (v_no_bg v) (v_composited v) (v_raw v) (v_frame v)));
      [reflexivity | ]
  | |- vt _ (assign (set_save_session_id ?n)) _ =>
      apply (vt_assign _ _ (fun v => mkView (v_ops v) (v_counter v) n (v_captured v)
               (v_no_bg v) (v_composited v) (v_raw v) (v_frame v)));
      [reflexivity | ]
  | |- vt _ (assign (set_last_captured ?x)) _ =>
      apply (vt_assign _ _ (fun v => mkView (v_ops v) (v_counter v) (v_sid v) x
               (v_no_bg v) (v_composited v) (v_raw v) (v_frame v)));
      [reflexivity | ]
  | |- vt _ (assign (set_last_no_bg ?x)) _ =>
      apply (vt_assign _ _ (fun v => mkView (v_ops v) (v_counter v) (v_sid v)
               (v_captured v) x (v_composited v) (v_raw v) (v_frame v)));
      [reflexivity | ]
  | |- vt _ (assign (set_last_composited ?x)) _ =>
      apply (vt_assign _ _ (fun v => mkView (v_ops v) (v_counter v) (v_sid v)
               (v_captured v) (v_no_bg v) (Some x) (v_raw v) (v_frame v)));
      [reflexivity | ]
  | |- vt _ (assign (set_last_raw ?x)) _ =>
      apply (vt_assign _ _ (fun v => mkView (v_ops v) (v_counter v) (v_sid v)
               (v_captured v) (v_no_bg v) (v_composited v) (Some x) (v_frame v)));
      [reflexivity | ]
  | |- vt _ (assign (set_preview_mode ?x)) _ =>
      apply (vt_assign _ _ (fun v => v)); [reflexivity | ]
  | |- vt _ (assign (set_bg_thumb_frame ?x)) _ =>
      apply (vt_assign _ _ (fun v => mkView (v_ops v) (v_counter v) (v_sid v)
               (v_captured v) (v_no_bg v) (v_composited v) (v_raw v) x));
      [reflexivity | ]
  | |- vt _ (assign (add_button ?x)) _ =>
      apply (vt_assign _ _ (fun v => mkView (v_ops v) (v_counter v) (v_sid v)
               (v_captured v) (v_no_bg v) (v_composited v) (v_raw v)
               (Some ((match v_frame v with Some l => l | None => [] end) ++ [x])%list)));
      [reflexivity | ]
  | |- vt _ (liftS (ext (C_imwrite ?f) _)) _ =>
      apply (vt_fileop _ _ _ (Imwrite f)); [reflexivity | intros [? | ?]]
  | |- vt _ (liftS (ext (C_makedirs ?d) _)) _ =>
      apply (vt_fileop _ _ _ (Makedirs d)); [reflexivity | intros [? | ?]]
  | |- vt _ (liftS (ext (C_save ?i ?p) _)) _ =>
      apply (vt_fileop _ _ _ (fun _ => Save i p)); [reflexivity | intros [? | ?]]
  | |- vt _ (liftS (ext _ _)) _ =>
      apply vt_ext_quiet; [reflexivity | intros [? | ?]]
  | |- vt _ (liftS (print _)) _ => apply vt_print
  | |- vt _ (liftS read_frame) _ =>
      apply vt_quiet;
      [ intros ?st; unfold read_frame; destruct (cap_read _); simpl;
        rewrite fileops_app; apply app_nil_r
      | intros [? | ?] ]
  | |- vt _ (liftS (upload_and_get_link _)) _ =>
      apply vt_quiet;
      [ apply (quiet_upload_and_get_link fileops quiet_fileops) | intros [? | ?] ]
  | |- vt _ (liftS (bind (read _) _)) _ =>
      apply vt_quiet; [reflexivity | intros [? | ?]]
  | |- vt _ (liftU (queue_upload _)) _ => apply vt_queue_upload; intros [? | ?]
  | |- vt _ (liftU stop) _ => apply vt_stop; intros [? | ?]
  | |- vt _ (PIL_open ?x) _ => unfold PIL_open
  | |- vt _ (convert_RGBA _) _ => unfold convert_RGBA
  | |- vt _ (resize _) _ => unfold resize
  | |- vt _ (remove _) _ => unfold remove
  | |- vt _ (alpha_composite _ _) _ => unfold alpha_composite
  | |- vt _ (display_image _) _ => unfold display_image
  | |- vt _ (display_qr_code _) _ => unfold display_qr_code
  | |- vt _ (resource_path _) _ => unfold resource_path
  | |- vt _ (if ?b then _ else _) _ => destruct b
  | |- vt _ (match ?x with _ => _ end) _ => destruct x
  end; vsimpl.

Ltac in_list := simpl; repeat first [left; reflexivity | right].

Lemma final_name_cutout n :
  "photo_" ++ str_int n ++ "_cutout.png" = final_name n "_cutout".
Proof. reflexivity. Qed.

Lemma final_name_fold n suffix :
  "photo_" ++ str_int n ++ suffix ++ ".png" = final_name n suffix.
Proof. reflexivity. Qed.

Ltac rules :=
  lazymatch goal with
  | |- file_rule _ (Imwrite _ _) = _ => apply rule_imwrite
  | |- file_rule _ (Makedirs _ _) = _ => apply rule_makedirs
  | |- file_rule _ (Save _ (path_join _ (final_name _ ?suffix))) = _ =>
      apply (rule_save _ _ _ suffix); in_list
  end.

Ltac naming :=
  first [ eassumption | eapply rule_snoc; [ naming | rules ] ].

Ltac written_by_rule :=
  lazymatch goal with
  | |- written_by _ _ (Save _ (path_join _ (final_name _ ?suffix))) =>
      exists suffix; split; [in_list | reflexivity]
  | |- _ => reflexivity
  end.

Ltac written :=
  repeat (cbn [app]; apply Forall_cons; [written_by_rule | ]);
  cbn [app]; apply Forall_nil.

Ltac leaf :=
  vsimpl; rewrite ?Nat.add_1_r, ?final_name_cutout, ?final_name_fold;
  split;
  [ split;
    [ vsimpl; eexists; naming
    | unfold captures_ok; vsimpl; repeat split; first [assumption | reflexivity] ]
  | vsimpl; eexists; split;
    [ first [ symmetry; apply app_nil_r
            | rewrite <- ?app_assoc; cbn [app]; reflexivity ]
    | written ] ].

Ltac walk := repeat vstep; try leaf.

Section Callbacks.
Variables (ops : list fileop) (c sid : nat) (cap : option string)
          (nb : option image) (comp raw : option (option image))
          (fr : option (list Button)).
Let v := mkView ops c sid cap nb comp raw fr.
Hypothesis Hv : view_ok v.

Ltac start :=
  destruct Hv as [[made Hf] Hc]; unfold v in *; clear Hv;
  unfold captures_ok in Hc; vsimpl in Hf; vsimpl in Hc;
  destruct c as [ | n];
  [ destruct Hc as (Hcap & Hnb & Hcomp & Hraw & Hfr)
  | destruct Hc as (Hsid & Hcap) ];
  subst.

Lemma take_photo_spec : vt v take_photo (fun v' _ => step_ok v v').
Proof. start; unfold take_photo; walk. Qed.

Lemma hide_preview_spec : vt v hide_preview (fun v' _ => step_ok v v').
Proof. start; unfold hide_preview; walk. Qed.

Lemma close_background_selector_spec :
  vt v close_background_selector (fun v' _ => step_ok v v').
Proof. start; unfold close_background_selector; walk. Qed.

Lemma show_cutout_spec : vt v (show_cutout cap) (fun v' _ => step_ok v v').
Proof. start; unfold show_cutout; walk. Qed.

Lemma on_close_spec : vt v on_close (fun v' _ => step_ok v v').
Proof. start; unfold on_close; walk. Qed.

Lemma remove_background_spec :
  vt v (remove_background cap) (fun v' _ => step_ok v v').
Proof.
  start; unfold remove_background, show_background_thumbnails, background_images;
    cbn [thumbnail_loop]; walk.
Qed.

Lemma on_bg_click_spec btn :
  fr <> None -> vt v (on_bg_click btn) (fun v' _ => step_ok v v').
Proof.
  intros Hfr'. start; [contradiction Hfr'; reflexivity | ].
  unfold on_bg_click; walk.
Qed.

Lemma save_final_image_spec : vt v save_final_image (fun v' _ => step_ok v v').
Proof.
  start.
  - destruct comp as [[img1 | ] | ]; destruct raw as [[img3 | ] | ];
      try discriminate; unfold save_final_image; walk.
  - destruct comp as [[img1 | ] | ]; destruct nb as [img2 | ];
      destruct raw as [[img3 | ] | ]; unfold save_final_image; walk.
Qed.

End Callbacks.

Lemma step_ok_refl v : view_ok v -> step_ok v v.
Proof.
  intros H. split; [exact H | ]. exists []. split; [ | constructor].
  symmetry. apply app_nil_r.
Qed.

Lemma booth_step_ok a (b : Booth) :
  view_ok (view b) -> step_ok (view b) (view (booth_step a b)).
Proof.
  intros H. destruct a; simpl.
  - apply (take_photo_spec _ _ _ _ _ _ _ _ H b eq_refl).
  - apply (hide_preview_spec _ _ _ _ _ _ _ _ H b eq_refl).
  - apply (show_cutout_spec _ _ _ _ _ _ _ _ H b eq_refl).
  - apply (remove_background_spec _ _ _ _ _ _ _ _ H b eq_refl).
  - destruct (bg_thumb_frame b) as [buttons | ] eqn:Hfr;
      [ | apply step_ok_refl, H].
    destruct (nth_error buttons i) as [btn | ]; [ | apply step_ok_refl, H].
    apply (on_bg_click_spec _ _ _ _ _ _ _ _ H btn); [ | reflexivity].
    rewrite Hfr. discriminate.
  - apply (close_background_selector_spec _ _ _ _ _ _ _ _ H b eq_refl).
  - apply (save_final_image_spec _ _ _ _ _ _ _ _ H b eq_refl).
  - replace (view (set_uploader _ b)) with (view b); [apply step_ok_refl, H | ].
    unfold view, booth_trace. simpl. rewrite fileops_worker_step. reflexivity.
  - apply (on_close_spec _ _ _ _ _ _ _ _ H b eq_refl).
Qed.

Lemma booth_run_ok events (b : Booth) :
  view_ok (view b) -> view_ok (view (booth_run events b)).
Proof.
  revert b. induction events as [ | a events IH]; intros b H; simpl.
  - exact H.
  - apply IH. apply (step_view _ _ (booth_step_ok a b H)).
Qed.

Lemma booth_init_ok (st : State) :
  trace st = [] -> view_ok (view (PhotoBooth_init (fresh_uploader st))).
Proof.
  intros Ht. split.
  - exists false. unfold view, booth_trace. simpl. rewrite Ht. reflexivity.
  - unfold captures_ok. simpl. repeat split; reflexivity.
Qed.

(** *** File names determine the counter *)

Lemma append_length (a b : string) :
  String.length (a ++ b) = String.length a + String.length b.
Proof. induction a as [ | ch a IH]; simpl; [reflexivity | rewrite IH; reflexivity]. Qed.

Lemma append_inv_head (p x y : string) : p ++ x = p ++ y -> x = y.
Proof.
  induction p as [ | ch p IH]; simpl; intros H; [exact H | ].
  injection H as H. apply IH, H.
Qed.

Lemma append_inv_tail (t x y : string) : x ++ t = y ++ t -> x = y.
Proof.
  revert y. induction x as [ | a x IH]; intros [ | b y] H; simpl in H.
  - reflexivity.
  - apply (f_equal String.length) in H. simpl in H. rewrite append_length in H. lia.
  - apply (f_equal String.length) in H. simpl in H. rewrite append_length in H. lia.
  - injection H as Hab H. subst b. rewrite (IH y H). reflexivity.
Qed.

Lemma to_uint_nonnil n : Nat.to_uint n <> Nil.
Proof.
  rewrite <- (DecimalNat.Unsigned.of_to n), DecimalNat.Unsigned.to_of.
  apply DecimalFacts.unorm_nonnil.
Qed.

Lemma str_int_inj n m : str_int n = str_int m -> n = m.
Proof.
  unfold str_int. intros H.
  apply (f_equal NilZero.uint_of_string) in H.
  rewrite !NilZero.usu in H by apply to_uint_nonnil.
  injection H as H. apply DecimalNat.Unsigned.to_uint_inj, H.
Qed.

Lemma raw_name_inj n m : raw_name n = raw_name m -> n = m.
Proof.
  unfold raw_name. intros H.
  apply append_inv_head, append_inv_tail in H. apply str_int_inj, H.
Qed.

(** *** What the naming rule says of each write *)

Definition well_named (op : fileop) : Prop :=
  match op with
  | Imwrite f _ => exists c, f = raw_name c
  | Makedirs d _ => d = output_folder
  | Save _ p =>
      exists c suffix,
        In suffix derived_suffixes
        /\ p = path_join output_folder (final_name c suffix)
  end.

Lemma file_rule_broken ops : fold_left file_rule ops None = None.
Proof. induction ops as [ | op ops IH]; simpl; [reflexivity | exact IH]. Qed.

Lemma file_rule_well_named ops (s s' : nat * bool) :
  fold_left file_rule ops (Some s) = Some s' -> Forall well_named ops.
Proof.
  revert s. induction ops as [ | op ops IH]; intros [c made] H;
    cbn [fold_left file_rule] in H.
  - constructor.
  - destruct op as [f r | d r | img p0].
    + destruct (String.eqb f (raw_name c)) eqn:Hf;
        [ | rewrite file_rule_broken in H; discriminate].
      constructor; [ | exact (IH _ H)].
      exists c. apply String.eqb_eq, Hf.
    + destruct (String.eqb d output_folder) eqn:Hd;
        [ | rewrite file_rule_broken in H; discriminate].
      constructor; [ | exact (IH _ H)].
      apply String.eqb_eq, Hd.
    + destruct (Nat.ltb 0 c && made
                && existsb (fun suffix =>
                              String.eqb p0 (path_join output_folder (final_name c suffix)))
                           derived_suffixes) eqn:Hs;
        [ | rewrite file_rule_broken in H; discriminate].
      constructor; [ | exact (IH _ H)].
      apply andb_prop in Hs. destruct Hs as [_ Hs].
      apply existsb_exists in Hs. destruct Hs as (suffix & Hin & Heq).
      exists c, suffix. split; [exact Hin | apply String.eqb_eq, Heq].
Qed.

(** ** Claims about the files of a session *)

(** C9, amended: in every session the files follow the naming rule.  A raw
    capture is written by [cv2.imwrite] under the relative name
    [photo_<c>.png], in the working directory, where [c] counts the captures
    written before it in the session; a cutout, composited or final image is
    written to [final_images/photo_<c><suffix>.png] with [c] the number of
    captures so far and the suffix one of [_cutout], [_composited], [_raw],
    after [final_images] has been created by [os.makedirs]; every name ends in
    [.png].  The count the rule reaches is the booth's [img_counter]. *)
Theorem files_follow_naming_rule
  (w : W) (drive : option Drive) (authenticated : bool) (out : list string)
  (events : list ui) :
  let b := booth_run events
             (PhotoBooth_init (fresh_uploader (mkState w drive authenticated out []))) in
  (exists made, naming_rule (fileops (booth_trace b)) = Some (img_counter b, made))
  /\ Forall well_named (fileops (booth_trace b)).
Proof.
  intros b.
  assert (H : exists made,
             naming_rule (fileops (booth_trace b)) = Some (img_counter b, made)).
  { apply (ok_files (view b)). apply booth_run_ok, booth_init_ok. reflexivity. }
  split; [exact H | ].
  destruct H as [made H]. exact (file_rule_well_named _ _ _ H).
Qed.

(** The naming the session id gives.  At any moment of a session, if the
    latest capture was saved as [photo_<n>.png], the counter and the session
    id are both [n + 1], and every cutout, composited or final image the
    next callback writes is named [photo_<n+1><suffix>.png].  This says
    nothing of which capture the image written was made from. *)
Lemma derived_files_use_next_index
  (w : W) (drive : option Drive) (authenticated : bool) (out : list string)
  (events : list ui) (next : ui) (n : nat) :
  let b := booth_run events
             (PhotoBooth_init (fresh_uploader (mkState w drive authenticated out []))) in
  last_captured b = Some (raw_name n) ->
  img_counter b = S n
  /\ save_session_id b = S n
  /\ exists ops,
       fileops (booth_trace (booth_step next b)) = (fileops (booth_trace b) ++ ops)%list
       /\ Forall (fun op =>
                    match op with
                    | Save _ p =>
                        exists suffix,
                          In suffix derived_suffixes
                          /\ p = path_join output_folder (final_name (S n) suffix)
                    | _ => True
                    end) ops.
Proof.
  intros b Hlast.
  assert (Hok : view_ok (view b)) by (apply booth_run_ok, booth_init_ok; reflexivity).
  assert (Hc : img_counter b = S n /\ save_session_id b = S n).
  { destruct Hok as [_ Hcap]. unfold captures_ok in Hcap. simpl in Hcap.
    destruct (img_counter b) as [ | m].
    - destruct Hcap as (Hnone & _). rewrite Hnone in Hlast. discriminate.
    - destruct Hcap as (Hsid & Hname). rewrite Hname in Hlast.
      assert (Heq : raw_name m = raw_name n) by congruence.
      apply raw_name_inj in Heq. subst m.
      split; [reflexivity | exact Hsid]. }
  destruct Hc as [Hcount Hsid].
  repeat (split; [first [assumption | lia] | ]).
  destruct (booth_step_ok next b Hok) as [_ (ops & Hops & Hall)].
  exists ops. split; [exact Hops | ].
  simpl in Hall. rewrite Hsid in Hall.
  eapply Forall_impl; [ | exact Hall].
  intros [f r | d r | img p]; simpl; auto.
Qed.

(** * Further properties of the code *)

(** ** [DriveManager]: the handle and the connection flag *)

(** X1: [get_drive] always returns; what it returns is the handle the manager
    holds afterwards, and that is a handle exactly when [is_connected()] is
    true afterwards.  On a connected session it changes nothing; otherwise it
    runs the whole initialization again. *)
Theorem get_drive_handle_iff_connected (st : State) :
  exists st' handle,
    get_drive st = (st', Ok handle)
    /\ handle = _drive st'
    /\ (is_connected st' = true <-> handle <> None)
    /\ (is_connected st = true -> st' = st)
    /\ (is_connected st = false -> st' = fst (_initialize_drive st)).
Proof.
  destruct (is_connected st) eqn:Hc.
  - destruct (is_connected_with st Hc) as [d Hd].
    exists st, (Some d). rewrite (get_drive_connected d st Hd).
    destruct Hd as [Hd Ha]. repeat split; auto; try discriminate.
  - destruct (_initialize_drive_spec st) as (st' & evs & H1 & _ & H3 & H4).
    exists st', (_drive st').
    assert (Hg : get_drive st = (st', Ok (_drive st'))).
    { unfold get_drive, bind, get_attr. unfold is_connected in Hc.
      destruct (_authenticated st); simpl in *.
      - destruct (_drive st); simpl in *; [discriminate | ].
        rewrite H1. reflexivity.
      - rewrite H1. reflexivity. }
    split; [exact Hg | split; [reflexivity | ]].
    split; [ | split; [discriminate | intros _; rewrite H1; reflexivity]].
    destruct (existsb fatal evs).
    + destruct (H3 eq_refl) as [Hd Ha]. unfold is_connected. rewrite Hd, Ha.
      split; [discriminate | intros H; contradiction H; reflexivity].
    + destruct (H4 eq_refl) as (d & Hd & Ha). unfold is_connected. rewrite Hd, Ha.
      split; [discriminate | reflexivity].
Qed.

(** ** The uploader: one handle, the count of unfinished tasks, shutdown *)

Lemma connected_with_after_step d a (u : Uploader) :
  connected_with d (g u) -> connected_with d (g (step a u)).
Proof.
  intros H. pose proof (connected_with_is_connected d _ H) as Hc.
  destruct a as [p | p | | ]; simpl.
  - unfold queue_upload, bind, get_self. rewrite Hc. simpl. exact H.
  - unfold lift.
    pose proof (preserves_upload_and_get_link (connected_with d)
                  (stable_connected_with d) (get_drive_keeps_connected d) p (g u) H) as H'.
    destruct (upload_and_get_link p (g u)); exact H'.
  - unfold stop, bind, get_self, put, join, lift, is_alive. simpl.
    destruct (upload_thread u); exact H.
  - unfold worker_step. destruct (upload_thread u) as [ | p | | ].
    + destruct (upload_queue u) as [ | [p | ] q]; exact H.
    + pose proof (preserves_upload_file (connected_with d)
                    (stable_connected_with d) (get_drive_keeps_connected d) p
                    (add_event (EvUploadFile p) (g u)) H) as H'.
      destruct (_upload_file p _) as [st' [b | e]]; exact H'.
    + destruct (unfinished_tasks u); exact H.
    + exact H.
Qed.

(** X2: once the session is connected with a handle, every later action of
    either thread (enqueue, share request, stop, worker step) leaves the
    manager connected with that same handle: it is never replaced and the
    session is never initialized again. *)
Theorem handle_is_kept (d : Drive) (schedule : list action) (u : Uploader) :
  connected_with d (g u) ->
  connected_with d (g (run schedule u))
  /\ get_drive (g (run schedule u)) = (g (run schedule u), Ok (Some d)).
Proof.
  intros H.
  assert (Hr : connected_with d (g (run schedule u))).
  { revert u H. induction schedule as [ | a schedule IH]; intros u H; simpl.
    - exact H.
    - apply IH, connected_with_after_step, H. }
  split; [exact Hr | apply get_drive_connected, Hr].
Qed.

(** The count of unfinished tasks of the queue. *)
Definition exited_with_pill (p : pc) : nat :=
  match p with Exited => 1 | _ => 0 end.

Definition accounted (u : Uploader) : Prop :=
  unfinished_tasks u
  = List.length (upload_queue u) + in_flight (upload_thread u)
    + exited_with_pill (upload_thread u).

Lemma accounted_step a (u : Uploader) : accounted u -> accounted (step a u).
Proof.
  unfold accounted. intros H. destruct u as [st q n t]. simpl in H.
  destruct a as [p | p | | ]; simpl.
  - unfold queue_upload, bind, get_self. simpl.
    destruct (is_connected st); simpl; [rewrite List.length_app; simpl; lia | exact H].
  - unfold lift. simpl. destruct (upload_and_get_link p st). simpl. exact H.
  - unfold stop, bind, get_self, put, join, lift, is_alive. simpl.
    destruct t; simpl in *; rewrite List.length_app; simpl; lia.
  - unfold worker_step. simpl. destruct t as [ | p | | ]; simpl in *.
    + destruct q as [ | [p | ] q]; simpl in *; lia.
    + destruct (_upload_file_returns p (add_event (EvUploadFile p) st))
        as (st' & b & Heq).
      rewrite Heq. simpl. lia.
    + destruct n as [ | n]; simpl; lia.
    + exact H.
Qed.

(** X3: in every interleaving the queue's count of unfinished tasks is the
    number of queued items, plus one for a path the worker holds, plus one
    once the worker has taken the poison pill, which is never marked done.
    So the count is zero when the idle worker has drained the queue, and it
    is never zero again after the worker has exited. *)
Theorem unfinished_tasks_accounting
  (w : W) (drive : option Drive) (authenticated : bool) (out : list string)
  (schedule : list action) :
  let u := run schedule (fresh_uploader (mkState w drive authenticated out [])) in
  unfinished_tasks u
  = List.length (upload_queue u) + in_flight (upload_thread u)
    + exited_with_pill (upload_thread u)
  /\ (upload_thread u = AtGet -> upload_queue u = [] -> unfinished_tasks u = 0)
  /\ (upload_thread u = Exited -> 1 <= unfinished_tasks u).
Proof.
  intros u.
  assert (Hrun : forall sched (u0 : Uploader), accounted u0 -> accounted (run sched u0)).
  { induction sched as [ | a sched IH]; intros u0 H0; simpl.
    - exact H0.
    - apply IH, accounted_step, H0. }
  assert (H : accounted u) by (apply Hrun; reflexivity).
  unfold accounted in H. split; [exact H | split].
  - intros Ht Hq. rewrite H, Ht, Hq. reflexivity.
  - intros Ht. rewrite H, Ht. simpl. lia.
Qed.

(** How far the worker is from leaving its loop, when a pill is queued. *)
Definition exit_weight (u : Uploader) : nat :=
  match upload_thread u with
  | Exited => 0
  | AtGet => 3 * List.length (before_sentinel (upload_queue u)) + 1
  | AtUpload _ => 3 * List.length (before_sentinel (upload_queue u)) + 3
  | AtTaskDone => 3 * List.length (before_sentinel (upload_queue u)) + 2
  end.

Lemma worker_step_exit_weight (u : Uploader) :
  In None (upload_queue u) \/ upload_thread u = Exited ->
  (In None (upload_queue (worker_step u)) \/ upload_thread (worker_step u) = Exited)
  /\ exit_weight (worker_step u) = pred (exit_weight u).
Proof.
  destruct u as [st q n t]. unfold exit_weight, worker_step. simpl.
  intros H. destruct t as [ | p | | ].
  - destruct q as [ | [p | ] q]; simpl in *.
    + destruct H as [[] | H]; discriminate H.
    + split; [ | lia]. destruct H as [[H | H] | H]; try discriminate; left; exact H.
    + split; [right; reflexivity | reflexivity].
  - destruct (_upload_file_returns p (add_event (EvUploadFile p) st))
      as (st' & b & Heq).
    rewrite Heq. simpl. split; [ | lia].
    destruct H as [H | H]; [left; exact H | discriminate H].
  - destruct n; simpl; (split; [ | lia]);
      (destruct H as [H | H]; [left; exact H | discriminate H]).
  - split; [right; reflexivity | reflexivity].
Qed.

Lemma worker_reaches_exit n (u : Uploader) :
  In None (upload_queue u) \/ upload_thread u = Exited ->
  exit_weight u <= n ->
  upload_thread (run (repeat WorkerStep n) u) = Exited.
Proof.
  revert u. induction n as [ | n IH]; intros u H Hw; simpl.
  - unfold exit_weight in Hw. destruct (upload_thread u); try lia. reflexivity.
  - change (run (WorkerStep :: repeat WorkerStep n) u)
      with (run (repeat WorkerStep n) (worker_step u)).
    destruct (worker_step_exit_weight u H) as [H' Hw'].
    apply IH; [exact H' | lia].
Qed.

Lemma before_sentinel_length items :
  List.length (before_sentinel items) <= List.length items.
Proof.
  induction items as [ | [p | ] items IH]; simpl; lia.
Qed.

Lemma before_sentinel_uploaded (l : list string) q :
  before_sentinel (map Some l ++ None :: q) = l.
Proof. induction l as [ | p l IH]; simpl; [reflexivity | rewrite IH; reflexivity]. Qed.

(** X4: [stop] shuts the worker down gracefully.  After the call, once the
    worker has been given enough steps (three per queued item and three
    more), it has left its loop, and the paths it has called [_upload_file]
    on are exactly the paths put on the queue before the first sentinel, in
    order: nothing queued before the stop is dropped. *)
Theorem stop_drains_then_exits
  (w : W) (drive : option Drive) (authenticated : bool) (out : list string)
  (before : list action) (n : nat) :
  let u1 := run before (fresh_uploader (mkState w drive authenticated out [])) in
  let u2 := step Stop u1 in
  let u3 := run (repeat WorkerStep n) u2 in
  3 * List.length (upload_queue u2) + 3 <= n ->
  upload_thread u3 = Exited
  /\ uploads (trace (g u3)) = before_sentinel (puts (trace (g u2))).
Proof.
  intros u1 u2 u3 Hn.
  assert (Hin : In None (upload_queue u2)).
  { unfold u2. simpl. destruct (stop_spec u1) as (_ & Hq & _). rewrite Hq.
    apply in_or_app. right. left. reflexivity. }
  assert (He : upload_thread u3 = Exited).
  { apply worker_reaches_exit; [left; exact Hin | ].
    pose proof (before_sentinel_length (upload_queue u2)).
    unfold exit_weight. destruct (upload_thread u2); lia. }
  split; [exact He | ].
  assert (Hok : uploader_ok u3).
  { apply uploader_ok_run, uploader_ok_step, uploader_ok_run, uploader_ok_fresh.
    reflexivity. }
  pose proof (ok_history _ Hok) as Hh. unfold history_ok in Hh. rewrite He in Hh.
  assert (Hp : puts (trace (g u3)) = puts (trace (g u2))).
  { unfold u3. generalize u2. clear. induction n as [ | n IH]; intros u; simpl.
    - reflexivity.
    - change (run (WorkerStep :: repeat WorkerStep n) u)
        with (run (repeat WorkerStep n) (worker_step u)).
      rewrite IH. apply worker_puts_nothing. }
  rewrite <- Hp, <- Hh. symmetry. apply before_sentinel_uploaded.
Qed.

(** ** The remote-service methods: what a success stands for *)

(** X5: [upload_and_get_link] hands out a link only for a file it has
    uploaded and made public.  Whenever it returns anything but [None], the
    last three calls it issued are [SetContentFile] on the path, [Upload] and
    [InsertPermission] with the anyone-reader permission, and all returned:
    the file object came from [CreateFile] with the metadata of the path,
    each call worked on the object and in the world the call before it left,
    and the value returned is the [alternateLink] of the very object
    [InsertPermission] gave back, in whose world the operation ends. *)
Theorem link_only_after_upload_and_permission
  (st st' : State) (file_path : string) (v : pyval) :
  upload_and_get_link file_path st = (st', Ok v) ->
  v <> VNone ->
  exists t d folder w0 w1 w2 w3 w4 created content uploaded shared,
    trace st' = (t ++ [EvCall (C_SetContentFile file_path) None;
                       EvCall (C_Upload content) None;
                       EvCall (C_InsertPermission public_permission) None])%list
    /\ sdk_CreateFile d (file_metadata file_path folder) w0 = (w1, Ok created)
    /\ sdk_SetContentFile file_path created w1 = (w2, Ok content)
    /\ sdk_Upload content w2 = (w3, Ok uploaded)
    /\ sdk_InsertPermission public_permission uploaded w3 = (w4, Ok shared)
    /\ world st' = w4
    /\ dict_get shared "alternateLink" = Some v.
Proof.
  unfold upload_and_get_link, try_except, bind.
  destruct (get_drive st) as [st1 [[d | ] | e]]; simpl;
    try (intros H Hv; injection H as _ H; subst v; contradiction Hv; reflexivity).
  unfold path_exists. destruct (os_path_exists file_path (world st1)); simpl;
    try (intros H Hv; injection H as _ H; subst v; contradiction Hv; reflexivity).
  destruct (_get_or_create_folder _) as [st2 [folder | e]]; simpl;
    try (intros H Hv; injection H as _ H; subst v; contradiction Hv; reflexivity).
  unfold ext, getitem.
  destruct (sdk_CreateFile d _ (world st2)) as [w1 [f1 | e]] eqn:H1; simpl;
    try (intros H Hv; injection H as _ H; subst v; contradiction Hv; reflexivity).
  destruct (sdk_SetContentFile file_path f1 w1) as [w2 [f2 | e]] eqn:H2; simpl;
    try (intros H Hv; injection H as _ H; subst v; contradiction Hv; reflexivity).
  destruct (sdk_Upload f2 w2) as [w3 [f3 | e]] eqn:H3; simpl;
    try (intros H Hv; injection H as _ H; subst v; contradiction Hv; reflexivity).
  destruct (sdk_InsertPermission public_permission f3 w3) as [w4 [f4 | e]] eqn:H4; simpl;
    try (intros H Hv; injection H as _ H; subst v; contradiction Hv; reflexivity).
  destruct (dict_get f4 "alternateLink") as [link | ] eqn:Hlink; simpl;
    try (intros H Hv; injection H as _ H; subst v; contradiction Hv; reflexivity).
  intros H Hv. injection H as Hst Hlv. subst st' v.
  exists (trace st2 ++ [EvCall (C_CreateFile (file_metadata file_path folder)) None])%list,
         d, folder, (world st2), w1, w2, w3, w4, f1, f2, f3, f4.
  split; [ | repeat split; assumption].
  cbn [trace add_event set_world add_stdout]. rewrite <- !app_assoc. reflexivity.
Qed.

(** X6: [_upload_file] always returns, and it reports [True] only for a file
    it has uploaded: whenever the result is [True], the last two calls it
    issued are [SetContentFile] on the path and [Upload], both of which
    returned. *)
Theorem true_only_after_upload (st : State) (file_path : string) :
  exists st' b,
    _upload_file file_path st = (st', Ok b)
    /\ (b = true ->
        exists t uploaded,
          trace st' = (t ++ [EvCall (C_SetContentFile file_path) None;
                             EvCall (C_Upload uploaded) None])%list).
Proof.
  unfold _upload_file, try_except, bind.
  destruct (get_drive st) as [st1 [[d | ] | e]]; simpl;
    try (eexists; eexists; split; [reflexivity | discriminate]).
  unfold path_exists. destruct (os_path_exists file_path (world st1)); simpl;
    try (eexists; eexists; split; [reflexivity | discriminate]).
  destruct (_get_or_create_folder _) as [st2 [folder | e]]; simpl;
    try (eexists; eexists; split; [reflexivity | discriminate]).
  unfold ext, getitem.
  destruct (sdk_CreateFile d _ (world st2)) as [w1 [f1 | e]]; simpl;
    try (eexists; eexists; split; [reflexivity | discriminate]).
  destruct (sdk_SetContentFile file_path f1 w1) as [w2 [f2 | e]]; simpl;
    try (eexists; eexists; split; [reflexivity | discriminate]).
  destruct (sdk_Upload f2 w2) as [w3 [f3 | e]]; simpl;
    try (eexists; eexists; split; [reflexivity | discriminate]).
  destruct (dict_get f3 "title") as [title | ]; simpl;
    try (eexists; eexists; split; [reflexivity | discriminate]).
  eexists; eexists; split; [reflexivity | ]. intros _.
  exists (trace st2 ++ [EvCall (C_CreateFile (file_metadata file_path folder)) None])%list,
         f2.
  cbn [trace add_event set_world add_stdout]. rewrite <- !app_assoc. reflexivity.
Qed.

(** X7: get-or-create on a connected session with no folder on the remote.
    When the listing is empty and creation and upload of the folder return
    an object with an id, folder resolution returns that id after exactly
    three calls: the listing, [CreateFile] with title PhotoBooth and the
    folder mime type, and [Upload].  If the remote then lists the uploaded
    folder, the next resolution finds it and returns the same id with one
    listing and no second creation. *)
Theorem folder_created_then_found
  (st : State) (d : Drive) (w1 w2 w3 w4 : W) (created uploaded : DriveFile)
  (others : list DriveFile) (id : pyval) :
  connected_with d st ->
  sdk_ListFile_GetList d folder_query (world st) = (w1, Ok []) ->
  sdk_CreateFile d folder_metadata w1 = (w2, Ok created) ->
  sdk_Upload created w2 = (w3, Ok uploaded) ->
  dict_get uploaded "id" = Some id ->
  sdk_ListFile_GetList d folder_query w3 = (w4, Ok (uploaded :: others)) ->
  exists st1 st2,
    _get_or_create_folder st = (st1, Ok id)
    /\ trace st1 = (trace st ++ [EvCall (C_ListFile folder_query) None;
                                 EvCall (C_CreateFile folder_metadata) None;
                                 EvCall (C_Upload created) None])%list
    /\ _get_or_create_folder st1 = (st2, Ok id)
    /\ trace st2 = (trace st1 ++ [EvCall (C_ListFile folder_query) None])%list.
Proof.
  intros Hc H1 H2 H3 Hid H4.
  pose (st1 := add_event (EvCall (C_Upload created) None)
                 (set_world w3
                    (add_event (EvCall (C_CreateFile folder_metadata) None)
                       (set_world w2
                          (add_event (EvCall (C_ListFile folder_query) None)
                             (set_world w1 st)))))).
  assert (Hc1 : connected_with d st1) by exact Hc.
  assert (E1 : _get_or_create_folder st = (st1, Ok id)).
  { unfold _get_or_create_folder, try_except, bind.
    rewrite (get_drive_connected d st Hc). unfold ext, getitem.
    rewrite H1. simpl. rewrite H2. simpl. rewrite H3. simpl. rewrite Hid.
    reflexivity. }
  exists st1. eexists. split; [exact E1 | split; [ | split]].
  - unfold st1. trace_done.
  - unfold _get_or_create_folder, try_except, bind.
    rewrite (get_drive_connected d st1 Hc1). unfold ext, getitem.
    change (world st1) with w3. rewrite H4. simpl. rewrite Hid. reflexivity.
  - reflexivity.
Qed.

(** ** The names the program hands to the upload *)

Definition slash_free (s : string) : Prop := after_last_slash s = None.

Lemma slash_free_cons c s :
  slash_free (String c s) -> Ascii.eqb c "/" = false /\ slash_free s.
Proof.
  unfold slash_free. simpl. destruct (after_last_slash s); [discriminate | ].
  destruct (Ascii.eqb c "/"); [discriminate | ]. split; reflexivity.
Qed.

Lemma slash_free_app a b : slash_free a -> slash_free b -> slash_free (a ++ b).
Proof.
  induction a as [ | c a IH]; simpl; intros Ha Hb; [exact Hb | ].
  destruct (slash_free_cons c a Ha) as [Hc Ha'].
  unfold slash_free in *. simpl. rewrite (IH Ha' Hb), Hc. reflexivity.
Qed.

Lemma slash_free_digits d : slash_free (NilEmpty.string_of_uint d).
Proof.
  unfold slash_free. induction d; simpl; try rewrite IHd; reflexivity.
Qed.

Lemma slash_free_str_int n : slash_free (str_int n).
Proof.
  unfold str_int, NilZero.string_of_uint.
  destruct (Nat.to_uint n); try apply slash_free_digits. reflexivity.
Qed.

Lemma after_slash a b : slash_free b -> after_last_slash (a ++ "/" ++ b) = Some b.
Proof.
  intros Hb. induction a as [ | c a IH]; simpl.
  - unfold slash_free in Hb. rewrite Hb. reflexivity.
  - simpl in IH. rewrite IH. reflexivity.
Qed.

Lemma after_trailing_slash a b :
  ends_with_slash a = true -> slash_free b -> after_last_slash (a ++ b) = Some b.
Proof.
  intros Ha Hb. induction a as [ | c a IH]; [discriminate | ].
  destruct a as [ | c' a'].
  - simpl in Ha. simpl. unfold slash_free in Hb. rewrite Hb, Ha. reflexivity.
  - change (ends_with_slash (String c' a') = true) in Ha.
    change (after_last_slash (String c (String c' a' ++ b)) = Some b).
    cbn [after_last_slash]. rewrite (IH Ha). reflexivity.
Qed.

Lemma path_join_relative a c s :
  Ascii.eqb c "/" = false ->
  path_join a (String c s)
  = if orb (String.eqb a "") (ends_with_slash a)
    then a ++ String c s else a ++ "/" ++ String c s.
Proof.
  intros Hc. unfold path_join.
  destruct c as [[] [] [] [] [] [] [] []]; try reflexivity. discriminate Hc.
Qed.

(** [os.path.basename(os.path.join(a, b))] is [b] for a [b] without slash. *)
Lemma basename_path_join a b : slash_free b -> basename (path_join a b) = b.
Proof.
  intros Hb. destruct b as [ | c s].
  - unfold path_join, basename.
    destruct (String.eqb a "") eqn:Ha; cbn [orb].
    + apply String.eqb_eq in Ha. subst a. reflexivity.
    + destruct (ends_with_slash a) eqn:He.
      * rewrite (after_trailing_slash a "" He eq_refl). reflexivity.
      * rewrite (after_slash a "" eq_refl). reflexivity.
  - destruct (slash_free_cons c s Hb) as [Hc _].
    rewrite (path_join_relative a c s Hc). unfold basename.
    destruct (String.eqb a "") eqn:Ha; cbn [orb].
    + apply String.eqb_eq in Ha. subst a. cbn [append].
      unfold slash_free in Hb. rewrite Hb. reflexivity.
    + destruct (ends_with_slash a) eqn:He.
      * rewrite (after_trailing_slash a _ He Hb). reflexivity.
      * rewrite (after_slash a _ Hb). reflexivity.
Qed.

(** X8: the title under which a file reaches the remote folder is its bare
    file name.  For every counter value and every suffix without a slash
    (the three the program uses among them), the metadata that the two upload
    methods build for [final_images/photo_<n><suffix>.png] carries the title
    [photo_<n><suffix>.png] and the resolved folder as its only parent; for a
    raw capture the title is [photo_<n>.png]. *)
Theorem uploaded_title_is_file_name (n : nat) (suffix : string) (folder : pyval) :
  slash_free suffix ->
  file_metadata (path_join output_folder (final_name n suffix)) folder
  = [("title", VStr (final_name n suffix));
     ("parents", VList [VDict [("id", folder)]])]
  /\ file_metadata (raw_name n) folder
     = [("title", VStr (raw_name n)); ("parents", VList [VDict [("id", folder)]])]
  /\ Forall slash_free derived_suffixes.
Proof.
  intros Hs.
  assert (Hf : slash_free (final_name n suffix)).
  { unfold final_name. repeat apply slash_free_app; try reflexivity;
      [apply slash_free_str_int | exact Hs]. }
  assert (Hr : slash_free (raw_name n)).
  { unfold raw_name. repeat apply slash_free_app; try reflexivity.
    apply slash_free_str_int. }
  unfold file_metadata. rewrite (basename_path_join output_folder _ Hf).
  split; [reflexivity | split].
  - unfold basename. unfold slash_free in Hr. rewrite Hr. reflexivity.
  - repeat constructor.
Qed.

(** ** The countdown before a capture *)

Inductive timer : Type := Tick | Finish.

(** The countdown's part of the booth: [self.count], the texts the label has
    been given, whether the label is placed, the timers registered with
    [root.after] that have not fired yet, and the time the fired ones have
    taken. *)
Record Clock : Type := mkClock {
  count : nat;
  shown : list string;
  placed : bool;
  pending : list (Z * timer);
  elapsed : Z
}.

Definition tick_countdown (c : Clock) : Clock :=
  if Nat.ltb 0 (count c) then
    mkClock (count c - 1) (shown c ++ [str_int (count c)]) (placed c)
            (pending c ++ [(1000%Z, Tick)]) (elapsed c)
  else
    mkClock (count c) (shown c ++ ["📸"]) (placed c)
            (pending c ++ [(500%Z, Finish)]) (elapsed c).

(** [winfo_ismapped] is Tk's answer at the moment of the call. *)
Definition start_countdown (winfo_ismapped : bool) (c : Clock) : Clock :=
  if winfo_ismapped then c
  else tick_countdown (mkClock 5 (shown c) true (pending c) (elapsed c)).

Definition finish_countdown (s : Clock * Booth) : Clock * Booth :=
  let (c, b) := s in
  (mkClock (count c) (shown c) false (pending c) (elapsed c), callback take_photo b).

(** The oldest pending timer fires and its callback runs. *)
Definition fire (s : Clock * Booth) : Clock * Booth :=
  let (c, b) := s in
  match pending c with
  | [] => s
  | (ms, t) :: rest =>
      let c' := mkClock (count c) (shown c) (placed c) rest (elapsed c + ms)%Z in
      match t with
      | Tick => (tick_countdown c', b)
      | Finish => finish_countdown (c', b)
      end
  end.

(** [n, n-1, ..., 1] as the label shows them. *)
Fixpoint count_texts (n : nat) : list string :=
  match n with
  | O => []
  | S m => str_int (S m) :: count_texts m
  end.

Lemma ticks_run_down n : forall (c : Clock) (b : Booth),
  count c = n -> pending c = [] ->
  Nat.iter n fire (tick_countdown c, b)
  = (mkClock 0 (shown c ++ count_texts n ++ ["📸"]) (placed c) [(500%Z, Finish)]
             (elapsed c + 1000 * Z.of_nat n)%Z, b).
Proof.
  induction n as [ | n IH]; intros c b Hc Hp.
  - simpl. unfold tick_countdown. rewrite Hc, Hp. simpl.
    rewrite Z.add_0_r. reflexivity.
  - rewrite Nat.iter_succ_r.
    assert (Hfire : fire (tick_countdown c, b)
                    = (tick_countdown
                         (mkClock n (shown c ++ [str_int (S n)]) (placed c) []
                                  (elapsed c + 1000)%Z), b)).
    { unfold tick_countdown at 1. rewrite Hc, Hp. simpl.
      rewrite Nat.sub_0_r. reflexivity. }
    rewrite Hfire, IH by reflexivity.
    cbn [count shown placed pending elapsed count_texts].
    rewrite <- app_assoc. cbn [app]. f_equal. f_equal. lia.
Qed.

(** X9: one press, one photo.  When Tk reports the countdown label as mapped,
    [start_countdown] does nothing.  Otherwise, with no timer pending, it
    places the label and starts a chain of timers with one timer pending at a
    time: the label shows 5, 4, 3, 2, 1 at intervals of 1000 ms, then the
    camera sign, and 500 ms later [finish_countdown] removes the label and
    calls [take_photo] once; no timer is left, 5500 ms after the press. *)
Theorem countdown_takes_one_photo (c : Clock) (b : Booth) :
  start_countdown true c = c
  /\ (pending c = [] ->
      Nat.iter 5 fire (start_countdown false c, b)
      = (mkClock 0 (shown c ++ ["5"; "4"; "3"; "2"; "1"; "📸"]) true
                 [(500%Z, Finish)] (elapsed c + 5000)%Z, b)
      /\ Nat.iter 6 fire (start_countdown false c, b)
         = (mkClock 0 (shown c ++ ["5"; "4"; "3"; "2"; "1"; "📸"]) false []
                    (elapsed c + 5500)%Z, callback take_photo b)
      /\ forall k, Nat.iter (6 + k) fire (start_countdown false c, b)
                   = Nat.iter 6 fire (start_countdown false c, b)).
Proof.
  split; [reflexivity | ]. intros Hp.
  assert (H5 : Nat.iter 5 fire (start_countdown false c, b)
               = (mkClock 0 (shown c ++ ["5"; "4"; "3"; "2"; "1"; "📸"]) true
                          [(500%Z, Finish)] (elapsed c + 5000)%Z, b)).
  { unfold start_countdown.
    rewrite (ticks_run_down 5 (mkClock 5 (shown c) true (pending c) (elapsed c)) b
               eq_refl Hp).
    reflexivity. }
  assert (H6 : Nat.iter 6 fire (start_countdown false c, b)
               = (mkClock 0 (shown c ++ ["5"; "4"; "3"; "2"; "1"; "📸"]) false []
                          (elapsed c + 5500)%Z, callback take_photo b)).
  { change (Nat.iter 6 fire (start_countdown false c, b))
      with (fire (Nat.iter 5 fire (start_countdown false c, b))).
    rewrite H5. unfold fire, finish_countdown.
    cbn [count shown placed pending elapsed]. f_equal. f_equal. lia. }
  split; [exact H5 | split; [exact H6 | ]].
  intros k. induction k as [ | k IH].
  - reflexivity.
  - rewrite Nat.add_succ_r.
    change (Nat.iter (S (6 + k)) fire (start_countdown false c, b))
      with (fire (Nat.iter (6 + k) fire (start_countdown false c, b))).
    rewrite IH, H6. reflexivity.
Qed.

(** ** The booth: what each event may change *)

(** The events that can write a file. *)
Definition writes_files (a : ui) : bool :=
  match a with
  | Capture | ClickCutout | ClickSaveFinal => true
  | _ => false
  end.

Section Footprint.
Variables (ops : list fileop) (c sid : nat) (cap : option string)
          (nb : option image) (comp raw : option (option image))
          (fr : option (list Button)).
Let v := mkView ops c sid cap nb comp raw fr.

(** The callback leaves the counters and the files alone. *)
Definition untouched (v' : View) : Prop :=
  v_ops v' = ops /\ v_counter v' = c /\ v_sid v' = sid /\ v_captured v' = cap.

(** The callback leaves the counters alone and writes some [ops']. *)
Definition counters_kept (v' : View) : Prop :=
  v_counter v' = c /\ v_sid v' = sid /\ v_captured v' = cap.

Ltac same := repeat vstep; vsimpl; repeat split; reflexivity.

Lemma hide_preview_untouched : vt v hide_preview (fun v' _ => untouched v').
Proof. unfold hide_preview, v, untouched. same. Qed.

Lemma close_background_selector_untouched :
  vt v close_background_selector (fun v' _ => untouched v').
Proof. unfold close_background_selector, v, untouched. same. Qed.

Lemma on_close_untouched : vt v on_close (fun v' _ => untouched v').
Proof. unfold on_close, v, untouched. same. Qed.

Lemma remove_background_untouched input :
  vt v (remove_background input) (fun v' _ => untouched v').
Proof.
  unfold remove_background, show_background_thumbnails, background_images, v, untouched.
  cbn [thumbnail_loop]. same.
Qed.

Lemma on_bg_click_untouched btn : vt v (on_bg_click btn) (fun v' _ => untouched v').
Proof. unfold on_bg_click, v, untouched. same. Qed.

Lemma show_cutout_counters input :
  vt v (show_cutout input) (fun v' _ => counters_kept v').
Proof. unfold show_cutout, v, counters_kept. same. Qed.

Lemma save_final_image_counters :
  vt v save_final_image (fun v' _ => counters_kept v').
Proof. unfold save_final_image, v, counters_kept. same. Qed.

(** What a capture does to the view, by how [take_photo] ends. *)
Definition captured (v' : View) (r : res unit) : Prop :=
  v_frame v' = fr
  /\ match r with
     | Ok _ =>
         (v_ops v' = ops
          /\ v_counter v' = c /\ v_sid v' = sid /\ v_captured v' = cap
          /\ v_no_bg v' = nb /\ v_composited v' = comp /\ v_raw v' = raw)
         \/ (v_ops v' = (ops ++ [Imwrite (raw_name c) true])%list
             /\ v_counter v' = S c /\ v_sid v' = S c
             /\ v_captured v' = Some (raw_name c)
             /\ v_no_bg v' = None /\ v_composited v' = Some None
             /\ v_raw v' = Some (Some (Opened (raw_name c))))
     | Raise _ =>
         (v_ops v' = (ops ++ [Imwrite (raw_name c) false])%list
          /\ v_counter v' = c /\ v_sid v' = sid /\ v_captured v' = cap
          /\ v_no_bg v' = nb /\ v_composited v' = comp /\ v_raw v' = raw)
         \/ (v_ops v' = (ops ++ [Imwrite (raw_name c) true])%list
             /\ v_counter v' = S c /\ v_sid v' = S c
             /\ v_captured v' = Some (raw_name c)
             /\ v_no_bg v' = nb /\ v_composited v' = comp /\ v_raw v' = raw)
     end.

(** [self.cap.read()] hands back its flag; it writes no file. *)
Lemma vt_read_frame (P : View -> res bool -> Prop) :
  (forall ok, P v (Ok ok)) -> vt v (liftS read_frame) P.
Proof.
  intros H b Hb. unfold liftS, liftU, lift, read_frame.
  destruct (cap_read (world (g (uploader b)))) as [w' ok]. simpl.
  replace (view _) with v; [apply H | ].
  rewrite <- Hb. unfold view, booth_trace. simpl.
  rewrite fileops_app. simpl. rewrite app_nil_r. reflexivity.
Qed.

Lemma take_photo_captured : vt v take_photo captured.
Proof.
  unfold take_photo. apply vt_bind, vt_read_frame. intros ok.
  unfold v, captured. repeat vstep; vsimpl; rewrite ?Nat.add_1_r;
    (split; [reflexivity | ]);
    first [ left; repeat split; reflexivity | right; repeat split; reflexivity ].
Qed.

End Footprint.

(** X10: only three events can write a file, and only a capture moves the
    counters.  Retake, Remove Background, a thumbnail click, closing the
    selector, a worker step and Quit leave the list of file-system writes as
    it is; every event but Capture leaves [img_counter], [save_session_id]
    and [last_captured] as they are, whatever the external calls do. *)
Theorem only_capture_moves_the_counters (a : ui) (b : Booth) :
  a <> Capture ->
  img_counter (booth_step a b) = img_counter b
  /\ save_session_id (booth_step a b) = save_session_id b
  /\ last_captured (booth_step a b) = last_captured b
  /\ (writes_files a = false ->
      fileops (booth_trace (booth_step a b)) = fileops (booth_trace b)).
Proof.
  intros Ha.
  assert (Hu : forall m : M Booth unit,
             vt (view b) m (fun v' _ => untouched (fileops (booth_trace b)) (img_counter b)
                                          (save_session_id b) (last_captured b) v') ->
             img_counter (callback m b) = img_counter b
             /\ save_session_id (callback m b) = save_session_id b
             /\ last_captured (callback m b) = last_captured b
             /\ (false = false ->
                 fileops (booth_trace (callback m b)) = fileops (booth_trace b))).
  { intros m H. destruct (H b eq_refl) as (H1 & H2 & H3 & H4).
    repeat split; try assumption. intros _. exact H1. }
  assert (Hk : forall m : M Booth unit,
             vt (view b) m (fun v' _ => counters_kept (img_counter b)
                                          (save_session_id b) (last_captured b) v') ->
             img_counter (callback m b) = img_counter b
             /\ save_session_id (callback m b) = save_session_id b
             /\ last_captured (callback m b) = last_captured b
             /\ (true = false ->
                 fileops (booth_trace (callback m b)) = fileops (booth_trace b))).
  { intros m H. destruct (H b eq_refl) as (H2 & H3 & H4).
    repeat split; try assumption. discriminate. }
  destruct a; cbn [booth_step writes_files].
  - contradiction Ha; reflexivity.
  - apply Hu, hide_preview_untouched.
  - apply Hk, show_cutout_counters.
  - apply Hu, remove_background_untouched.
  - destruct (bg_thumb_frame b) as [buttons | ]; [ | repeat split].
    destruct (nth_error buttons i) as [btn | ]; [ | repeat split].
    apply Hu, on_bg_click_untouched.
  - apply Hu, close_background_selector_untouched.
  - apply Hk, save_final_image_counters.
  - repeat split. intros _. unfold booth_trace. simpl. apply fileops_worker_step.
  - apply Hu, on_close_untouched.
Qed.

(** X11: a capture is counted exactly when [cv2.imwrite] returns, and the
    images of the previous capture are reset exactly when [take_photo]
    returns.  When [take_photo] returns, either no write was attempted (the
    camera gave no frame) and nothing changed, or the write of
    [photo_<c>.png] for the old counter value [c] returned, [img_counter]
    and [save_session_id] are both [c + 1], [last_captured] is that name,
    [last_no_bg] and [last_composited] are [None] and [last_raw] is the new
    photo as opened.  When it raises, either [cv2.imwrite] raised and
    nothing changed, or the write returned and a later step raised (the
    queueing, [Image.open] or the display): the capture is counted as above,
    but the three images of the previous capture are left as they were.  In
    no case is the background selector closed. *)
Theorem capture_counts_written_photos (b : Booth) :
  let c := img_counter b in
  let b' := booth_step Capture b in
  let files := fileops (booth_trace b) in
  let files' := fileops (booth_trace b') in
  bg_thumb_frame b' = bg_thumb_frame b
  /\ match snd (take_photo b) with
     | Ok _ =>
         (files' = files
          /\ img_counter b' = c /\ save_session_id b' = save_session_id b
          /\ last_captured b' = last_captured b
          /\ last_no_bg b' = last_no_bg b /\ last_composited b' = last_composited b
          /\ last_raw b' = last_raw b)
         \/ (files' = (files ++ [Imwrite (raw_name c) true])%list
             /\ img_counter b' = S c /\ save_session_id b' = S c
             /\ last_captured b' = Some (raw_name c)
             /\ last_no_bg b' = None /\ last_composited b' = Some None
             /\ last_raw b' = Some (Some (Opened (raw_name c))))
     | Raise _ =>
         (files' = (files ++ [Imwrite (raw_name c) false])%list
          /\ img_counter b' = c /\ save_session_id b' = save_session_id b
          /\ last_captured b' = last_captured b
          /\ last_no_bg b' = last_no_bg b /\ last_composited b' = last_composited b
          /\ last_raw b' = last_raw b)
         \/ (files' = (files ++ [Imwrite (raw_name c) true])%list
             /\ img_counter b' = S c /\ save_session_id b' = S c
             /\ last_captured b' = Some (raw_name c)
             /\ last_no_bg b' = last_no_bg b /\ last_composited b' = last_composited b
             /\ last_raw b' = last_raw b)
     end.
Proof.
  intros c b' files files'.
  exact (take_photo_captured _ _ _ _ _ _ _ _ b eq_refl).
Qed.

(** ** What the derived files hold *)

Definition cutout_of (k : nat) : image := NoBg (RGBA (Opened (raw_name k))).

(** Images made from a capture taken before the counter reached [n]. *)
Definition is_raw (n : nat) (img : image) : Prop :=
  exists k, k < n /\ img = Opened (raw_name k).

Definition is_cutout (n : nat) (img : image) : Prop :=
  exists k, k < n /\ img = cutout_of k.

Definition is_composite (n : nat) (img : image) : Prop :=
  exists k p, k < n /\ img = Composite (Resized (RGBA (Opened p))) (cutout_of k).

Definition derived_path (n : nat) (suffix : string) : string :=
  path_join output_folder (final_name n suffix).

(** A saved file holds what its suffix says, made from a capture whose index
    is below the index in the file's name. *)
Definition honest (op : fileop) : Prop :=
  match op with
  | Save img p =>
      exists n,
        (is_raw n img /\ p = derived_path n "_raw")
        \/ (is_cutout n img /\ p = derived_path n "_cutout")
        \/ (is_composite n img /\ p = derived_path n "_composited")
  | _ => True
  end.

Definition opt_all {A} (P : A -> Prop) (o : option A) : Prop :=
  match o with Some a => P a | None => True end.

Record provenance (v : View) : Prop := {
  prov_no_bg : opt_all (is_cutout (v_counter v)) (v_no_bg v);
  prov_composited : opt_all (is_composite (v_counter v)) (truthy_attr (v_composited v));
  prov_raw : opt_all (is_raw (v_counter v)) (truthy_attr (v_raw v));
  prov_frame :
    opt_all (Forall (fun btn => is_cutout (v_counter v) (no_bg_img btn))) (v_frame v);
  prov_ops : Forall honest (v_ops v)
}.

Lemma is_raw_mono n m img : n <= m -> is_raw n img -> is_raw m img.
Proof. intros H (k & Hk & Heq). exists k. split; [lia | exact Heq]. Qed.

Lemma is_cutout_mono n m img : n <= m -> is_cutout n img -> is_cutout m img.
Proof. intros H (k & Hk & Heq). exists k. split; [lia | exact Heq]. Qed.

Lemma is_composite_mono n m img : n <= m -> is_composite n img -> is_composite m img.
Proof. intros H (k & q & Hk & Heq). exists k, q. split; [lia | exact Heq]. Qed.

Lemma opt_all_impl {A} (P Q : A -> Prop) o :
  (forall a, P a -> Q a) -> opt_all P o -> opt_all Q o.
Proof. intros H. destruct o; simpl; auto. Qed.

Lemma frame_mono n m (fr : option (list Button)) :
  n <= m ->
  opt_all (Forall (fun btn => is_cutout n (no_bg_img btn))) fr ->
  opt_all (Forall (fun btn => is_cutout m (no_bg_img btn))) fr.
Proof.
  intros H. apply opt_all_impl. intros buttons. apply Forall_impl.
  intros btn. apply is_cutout_mono, H.
Qed.

Lemma derived_path_cutout n :
  path_join output_folder ("photo_" ++ str_int n ++ "_cutout.png")
  = derived_path n "_cutout".
Proof. reflexivity. Qed.

Lemma derived_path_fold n suffix :
  path_join output_folder ("photo_" ++ str_int n ++ suffix ++ ".png")
  = derived_path n suffix.
Proof. reflexivity. Qed.

Ltac fresh_image :=
  lazymatch goal with
  | |- is_raw _ _ => eexists; (split; [ | reflexivity]); lia
  | |- is_cutout _ _ => eexists; (split; [ | reflexivity]); lia
  | |- is_composite _ _ => eexists; eexists; (split; [ | reflexivity]); lia
  end.

Ltac known_image :=
  first [ assumption
        | eapply is_raw_mono; [ | eassumption]; lia
        | eapply is_cutout_mono; [ | eassumption]; lia
        | eapply is_composite_mono; [ | eassumption]; lia
        | fresh_image ].

Ltac honest_op :=
  lazymatch goal with
  | |- honest (Save _ (derived_path ?n "_raw")) =>
      exists n; left; split; [known_image | reflexivity]
  | |- honest (Save _ (derived_path ?n "_cutout")) =>
      exists n; right; left; split; [known_image | reflexivity]
  | |- honest (Save _ (derived_path ?n "_composited")) =>
      exists n; right; right; split; [known_image | reflexivity]
  | |- honest _ => exact I
  end.

Ltac attribute :=
  cbn [opt_all truthy_attr no_bg_img];
  first [ exact I
        | assumption
        | known_image
        | eapply frame_mono; [ | eassumption]; lia
        | eapply opt_all_impl; [ | eassumption]; intros ? ?; known_image
        | cbn [app]; repeat (apply Forall_cons; [cbn [no_bg_img]; known_image | ]);
          apply Forall_nil ].

Ltac files :=
  rewrite <- ?app_assoc; cbn [app];
  first [ assumption
        | apply Forall_app; split;
          [ assumption
          | repeat (apply Forall_cons; [honest_op | ]); apply Forall_nil ] ].

Ltac kept :=
  vsimpl; rewrite ?Nat.add_1_r, ?derived_path_cutout, ?derived_path_fold;
  split; vsimpl; [attribute | attribute | attribute | attribute | files].

Section Provenance.
Variables (ops : list fileop) (c sid : nat) (cap : option string)
          (nb : option image) (comp raw : option (option image))
          (fr : option (list Button)).
Let v := mkView ops c sid cap nb comp raw fr.
Hypothesis Hv : view_ok v.
Hypothesis Hp : provenance v.

Ltac start :=
  destruct Hp as [Hnb' Hcomp' Hraw' Hfr' Hops']; clear Hp;
  destruct Hv as [[made Hf] Hc]; unfold v in *; clear Hv;
  unfold captures_ok in Hc; vsimpl in Hf; vsimpl in Hc;
  vsimpl in Hnb'; vsimpl in Hcomp'; vsimpl in Hraw'; vsimpl in Hfr'; vsimpl in Hops';
  destruct c as [ | n];
  [ destruct Hc as (Hcap & Hnb & Hcomp & Hraw & Hfr)
  | destruct Hc as (Hsid & Hcap) ];
  subst.

Lemma take_photo_provenance : vt v take_photo (fun v' _ => provenance v').
Proof. start; unfold take_photo; repeat vstep; kept. Qed.

Lemma hide_preview_provenance : vt v hide_preview (fun v' _ => provenance v').
Proof. start; unfold hide_preview; repeat vstep; kept. Qed.

Lemma close_background_selector_provenance :
  vt v close_background_selector (fun v' _ => provenance v').
Proof. start; unfold close_background_selector; repeat vstep; kept. Qed.

Lemma on_close_provenance : vt v on_close (fun v' _ => provenance v').
Proof. start; unfold on_close; repeat vstep; kept. Qed.

Lemma show_cutout_provenance : vt v (show_cutout cap) (fun v' _ => provenance v').
Proof. start; unfold show_cutout; repeat vstep; kept. Qed.

Lemma remove_background_provenance :
  vt v (remove_background cap) (fun v' _ => provenance v').
Proof.
  start; unfold remove_background, show_background_thumbnails, background_images;
    cbn [thumbnail_loop]; repeat vstep; kept.
Qed.

Lemma on_bg_click_provenance btn :
  is_cutout c (no_bg_img btn) -> vt v (on_bg_click btn) (fun v' _ => provenance v').
Proof.
  intros (k & Hk & Hbtn). start; [lia | ].
  unfold on_bg_click. rewrite Hbtn. repeat vstep; kept.
Qed.

Lemma save_final_image_provenance :
  vt v save_final_image (fun v' _ => provenance v').
Proof.
  start.
  - destruct comp as [[img1 | ] | ]; destruct raw as [[img3 | ] | ];
      try discriminate; unfold save_final_image; repeat vstep; kept.
  - destruct comp as [[img1 | ] | ]; destruct nb as [img2 | ];
      destruct raw as [[img3 | ] | ];
      cbn [opt_all truthy_attr] in *; unfold save_final_image; repeat vstep; kept.
Qed.

End Provenance.

Lemma booth_step_provenance a (b : Booth) :
  view_ok (view b) -> provenance (view b) -> provenance (view (booth_step a b)).
Proof.
  intros H Hp. destruct a; simpl.
  - apply (take_photo_provenance _ _ _ _ _ _ _ _ H Hp b eq_refl).
  - apply (hide_preview_provenance _ _ _ _ _ _ _ _ H Hp b eq_refl).
  - apply (show_cutout_provenance _ _ _ _ _ _ _ _ H Hp b eq_refl).
  - apply (remove_background_provenance _ _ _ _ _ _ _ _ H Hp b eq_refl).
  - destruct (bg_thumb_frame b) as [buttons | ] eqn:Hfr; [ | exact Hp].
    destruct (nth_error buttons i) as [btn | ] eqn:Hbtn; [ | exact Hp].
    apply (on_bg_click_provenance _ _ _ _ _ _ _ _ H Hp btn); [ | reflexivity].
    pose proof (prov_frame _ Hp) as Hall. simpl in Hall. rewrite Hfr in Hall.
    simpl in Hall. rewrite Forall_forall in Hall.
    apply Hall, (nth_error_In _ _ Hbtn).
  - apply (close_background_selector_provenance _ _ _ _ _ _ _ _ H Hp b eq_refl).
  - apply (save_final_image_provenance _ _ _ _ _ _ _ _ H Hp b eq_refl).
  - replace (view (set_uploader _ b)) with (view b); [exact Hp | ].
    unfold view, booth_trace. simpl. rewrite fileops_worker_step. reflexivity.
  - apply (on_close_provenance _ _ _ _ _ _ _ _ H Hp b eq_refl).
Qed.

(** X12: every file in [final_images] holds what its name says.  In every
    session, each image saved by [show_cutout] or [save_final_image] is, by
    its suffix, a capture as opened ([_raw]), the background-free cut of a
    capture ([_cutout]), or such a cut over a resized background
    ([_composited]); and the capture [photo_<k>.png] it is made from has an
    index below the index [n] in the name [photo_<n><suffix>.png]: a derived
    file never carries the index of its own raw file, nor of a later one. *)
Theorem derived_files_hold_what_their_name_says
  (w : W) (drive : option Drive) (authenticated : bool) (out : list string)
  (events : list ui) :
  let b := booth_run events
             (PhotoBooth_init (fresh_uploader (mkState w drive authenticated out []))) in
  Forall honest (fileops (booth_trace b))
  /\ opt_all (is_cutout (img_counter b)) (last_no_bg b)
  /\ opt_all (is_raw (img_counter b)) (truthy_attr (last_raw b)).
Proof.
  intros b.
  assert (Hrun : forall evs (b0 : Booth),
             view_ok (view b0) -> provenance (view b0) ->
             provenance (view (booth_run evs b0))).
  { induction evs as [ | a evs IH]; intros b0 H0 Hp0; simpl; [exact Hp0 | ].
    apply IH.
    - apply (step_view _ _ (booth_step_ok a b0 H0)).
    - apply booth_step_provenance; assumption. }
  assert (Hp : provenance (view b)).
  { apply Hrun; [apply booth_init_ok; reflexivity | ].
    split; simpl; auto. }
  destruct Hp as [H1 _ H3 _ H5]. split; [exact H5 | split; [exact H1 | exact H3]].
Qed.

(** ** Which image [save_final_image] saves *)

Section Priority.
Variables (ops : list fileop) (c sid : nat) (cap : option string)
          (nb : option image) (comp raw : option (option image))
          (fr : option (list Button)).
Let v := mkView ops c sid cap nb comp raw fr.

Definition saved_by_priority (v' : View) : Prop :=
  exists returned saved,
    v_ops v' = (ops ++ Makedirs output_folder returned :: saved)%list
    /\ (returned = false -> saved = [])
    /\ (returned = true ->
        match truthy_attr comp, nb, truthy_attr raw with
        | Some img, _, _ => saved = [Save img (derived_path sid "_composited")]
        | None, Some img, _ => saved = [Save img (derived_path sid "_cutout")]
        | None, None, Some img => saved = [Save img (derived_path sid "_raw")]
        | None, None, None => saved = []
        end)
    /\ v_no_bg v' = nb /\ v_composited v' = comp /\ v_raw v' = raw.

Lemma save_final_image_saved_by_priority :
  vt v save_final_image (fun v' _ => saved_by_priority v').
Proof.
  unfold v, saved_by_priority.
  destruct comp as [[img1 | ] | ]; destruct nb as [img2 | ];
    destruct raw as [[img3 | ] | ];
    unfold save_final_image; repeat vstep;
    (eexists; eexists;
     split; [rewrite <- ?app_assoc; cbn [app]; reflexivity | ];
     split; [first [discriminate | reflexivity] | ];
     split; [first [discriminate | intros _; reflexivity] | ];
     repeat split; reflexivity).
Qed.

End Priority.

(** X13: Save Final saves the most processed image the booth holds, once.
    [final_images] is created first; if that raises, nothing is saved.
    Otherwise exactly one save is attempted: the composited image if there
    is one, else the cutout, else the raw photo, under the current session
    id with the suffix [_composited], [_cutout] or [_raw]; with no image,
    nothing.  Whatever the save, the upload and the QR display do, no second
    write follows and the three images stay as they are. *)
Theorem save_final_image_priority (b : Booth) :
  let b' := booth_step ClickSaveFinal b in
  let sid := save_session_id b in
  exists returned saved,
    fileops (booth_trace b')
    = (fileops (booth_trace b) ++ Makedirs output_folder returned :: saved)%list
    /\ (returned = false -> saved = [])
    /\ (returned = true ->
        match truthy_attr (last_composited b), last_no_bg b, truthy_attr (last_raw b) with
        | Some img, _, _ => saved = [Save img (derived_path sid "_composited")]
        | None, Some img, _ => saved = [Save img (derived_path sid "_cutout")]
        | None, None, Some img => saved = [Save img (derived_path sid "_raw")]
        | None, None, None => saved = []
        end)
    /\ last_no_bg b' = last_no_bg b
    /\ last_composited b' = last_composited b
    /\ last_raw b' = last_raw b.
Proof.
  intros b' sid.
  exact (save_final_image_saved_by_priority _ _ _ _ _ _ _ _ b eq_refl).
Qed.

(** ** Initialization of the session, call by call *)

Definition authenticates (e : event) : bool :=
  match e with
  | EvCall C_LocalWebserverAuth _ | EvCall C_Refresh _ | EvCall C_Authorize _ => true
  | _ => false
  end.

Definition raises (e : event) : bool :=
  match e with
  | EvCall _ (Some _) => true
  | _ => false
  end.

Ltac ends_with :=
  lazymatch goal with
  | |- exists t auth d, ?l = _ /\ _ =>
      exists (firstn (List.length l - 3) l); eexists; eexists;
      split; [reflexivity | split; [reflexivity | split; [reflexivity | ]]];
      eexists; eexists; eexists;
      split; [eassumption | split; [eassumption | reflexivity]]
  | |- exists t e, ?l = _ /\ _ =>
      exists (firstn (List.length l - 1) l); eexists;
      split; [reflexivity | split; reflexivity]
  end.

(** X14: one initialization of the session takes one route to authenticate
    and stops at the first call that raises.  [_initialize_drive] calls at
    most one of [LocalWebserverAuth], [Refresh] and [Authorize].  When it
    ends connected, its last three calls are that authentication,
    [SaveCredentialsFile] and [GoogleDrive], all of which returned; the
    handle it holds is the object [GoogleDrive] returned, in the world
    [SaveCredentialsFile] left, and the world it ends in is the one
    [GoogleDrive] left; the last line printed says so.  When it ends
    disconnected, the handle is absent, and the last call it issued is one
    that raised, other than the loading of the credentials file. *)
Theorem initialization_authenticates_once (st : State) :
  exists st' evs,
    _initialize_drive st = (st', Ok tt)
    /\ trace st' = (trace st ++ evs)%list
    /\ List.length (filter authenticates evs) <= 1
    /\ (is_connected st' = true ->
        (exists t auth d,
            evs = (t ++ [EvCall auth None;
                         EvCall (C_SaveCredentialsFile "mycreds.txt") None;
                         EvCall C_GoogleDrive None])%list
            /\ authenticates (EvCall auth None) = true
            /\ _drive st' = Some d
            /\ exists w0 w1 w2,
                 sdk_SaveCredentialsFile "mycreds.txt" w0 = (w1, Ok tt)
                 /\ sdk_GoogleDrive w1 = (w2, Ok d)
                 /\ world st' = w2)
        /\ exists out,
             stdout st' = (out ++ ["[✓] Google Drive connection established"])%list)
    /\ (is_connected st' = false ->
        _drive st' = None
        /\ exists t e, evs = (t ++ [e])%list /\ fatal e = true /\ raises e = true).
Proof.
  unfold _initialize_drive, try_except, bind, ext, path_exists, read, print,
    assign_drive, assign_authenticated.
  simpl.
  repeat oracle;
    repeat match goal with a : unit |- _ => destruct a end;
    (eexists; eexists; split; [reflexivity | ]; split; [trace_done | ];
     split; [simpl; lia | ];
     split;
     [ intros H; first [discriminate H | split; [ends_with | eexists; reflexivity]]
     | intros H; first [discriminate H | split; [reflexivity | ends_with]] ]).
Qed.

End Proofs.

(** * The claims on concrete runs *)

Definition sim_booth : Booth Sim :=
  PhotoBooth_init (fresh_uploader (connected_state sim_healthy)).

Definition sim_path : string := "final_images/photo_1_cutout.png".

Definition sim_schedule : list action :=
  [QueueUpload "photo_0.png"; WorkerStep; QueueUpload "photo_1.png";
   UploadAndGetLink sim_path; WorkerStep; QueueUpload "photo_2.png"].

(** The capture an image was made from. *)
Fixpoint source_of (img : image) : string :=
  match img with
  | Opened p => p
  | RGBA i | Resized i | NoBg i => source_of i
  | Composite _ foreground => source_of foreground
  end.

Ltac member := cbv; repeat first [left; reflexivity | right].

(** Three paths enqueued between worker steps and a share request come out
    in enqueue order. *)
Lemma uploads_are_fifo_witness :
  is_connected (connected_state sim_healthy) = true
  /\ forallb no_stop sim_schedule = true
  /\ forall n, 10 <= n ->
       uploads (trace (g (run (sim_schedule ++ repeat WorkerStep n)
                              (fresh_uploader (connected_state sim_healthy)))))
       = ["photo_0.png"; "photo_1.png"; "photo_2.png"].
Proof.
  split; [reflexivity | split; [reflexivity | ]].
  exact (proj2 (uploads_are_fifo (connected_state sim_healthy) sim_schedule
                                 eq_refl eq_refl eq_refl)).
Defined.

Lemma queue_upload_disconnected_witness :
  is_connected (g (fresh_uploader (initial_state sim_healthy))) = false
  /\ upload_queue (fst (queue_upload "photo_0.png"
                                     (fresh_uploader (initial_state sim_healthy)))) = [].
Proof.
  split; [reflexivity | ].
  exact (proj1 (proj2 (queue_upload_disconnected
                         (fresh_uploader (initial_state sim_healthy))
                         "photo_0.png" eq_refl))).
Defined.

(** C3 as stated fails: the listing of folders raises inside folder
    resolution, and the operation still uploads the file, with parent id
    [None], and returns its link. *)
Lemma folder_failure_does_not_abort_upload :
  let r := upload_and_get_link sim_path (connected_state sim_listing_down) in
  In (EvCall (C_ListFile folder_query)
             (Some (Exception "ApiRequestError" "listing refused")))
     (trace (fst r))
  /\ In (EvCall (C_CreateFile (file_metadata sim_path VNone)) None) (trace (fst r))
  /\ snd r = Ok (VStr "https://drive.example/file-1")
  /\ snd r <> Ok VNone.
Proof.
  split; [member | split; [member | split; [reflexivity | discriminate]]].
Qed.

(** An upload that is refused: the operation returns [None] and the refused
    call is the last one. *)
Lemma upload_and_get_link_failures_witness :
  exists t,
    failure (connected_state sim_upload_down) sim_path t
    /\ exists st',
         upload_and_get_link sim_path (connected_state sim_upload_down) = (st', Ok VNone)
         /\ trace st' = t.
Proof.
  eexists. split.
  - eapply remote_step;
      [reflexivity | reflexivity | reflexivity | eapply upload_fails; reflexivity].
  - apply (proj1 (proj2 (upload_and_get_link_failures
                           (connected_state sim_upload_down) sim_path))).
    eapply remote_step;
      [reflexivity | reflexivity | reflexivity | eapply upload_fails; reflexivity].
Defined.

(** C6 as stated fails: [LoadCredentialsFile] raises, the exception is caught
    by the inner handler, the operator signs in, and the session ends up
    connected. *)
Lemma load_failure_leaves_session_connected :
  let st' := fst (_initialize_drive (initial_state sim_damaged_credentials)) in
  In (EvCall (C_LoadCredentialsFile "mycreds.txt")
             (Some (Exception "InvalidCredentialsError" "credentials file is damaged")))
     (trace st')
  /\ _drive st' = Some (GoogleDrive 0)
  /\ is_connected st' = true.
Proof.
  split; [member | split; reflexivity].
Qed.

(** The operator rejects the sign-in: the exception is caught and the
    session is not connected. *)
Lemma initialization_failures_are_caught_witness :
  exists st' evs,
    _initialize_drive (initial_state sim_rejected) = (st', Ok tt)
    /\ trace st' = evs
    /\ existsb fatal evs = true
    /\ is_connected st' = false.
Proof.
  destruct (proj1 (initialization_failures_are_caught (initial_state sim_rejected)))
    as (st' & evs & H1 & H2 & H3 & _).
  exists st', evs. split; [exact H1 | ]. split; [exact H2 | ].
  assert (Hf : existsb fatal evs = true).
  { change (trace st' = evs) in H2. rewrite <- H2. injection H1 as <-. reflexivity. }
  split; [exact Hf | apply H3, Hf].
Defined.

Lemma folder_resolution_twice_witness :
  connected_with (GoogleDrive 0) (connected_state sim_healthy)
  /\ exists st1 st2,
       _get_or_create_folder (connected_state sim_healthy) = (st1, Ok (VStr "folder-0"))
       /\ _get_or_create_folder st1 = (st2, Ok (VStr "folder-0"))
       /\ trace st2 = [EvCall (C_ListFile folder_query) None;
                       EvCall (C_ListFile folder_query) None].
Proof.
  split; [split; reflexivity | ].
  exact (folder_resolution_twice (connected_state sim_healthy) (GoogleDrive 0)
           sim_healthy sim_healthy sim_folder [] [] (VStr "folder-0")
           (conj eq_refl eq_refl) eq_refl eq_refl eq_refl).
Defined.

Lemma upload_and_get_link_missing_file_witness :
  os_path_exists "final_images/photo_7_raw.png" (world (connected_state sim_healthy))
  = false
  /\ exists st',
       upload_and_get_link "final_images/photo_7_raw.png" (connected_state sim_healthy)
       = (st', Ok VNone)
       /\ trace st' = [EvExists "final_images/photo_7_raw.png" false].
Proof.
  split; [reflexivity | ].
  exact (proj2 (upload_and_get_link_missing_file (connected_state sim_healthy)
                  "final_images/photo_7_raw.png") eq_refl eq_refl).
Defined.

(** C9 as stated fails: the raw capture is written under a relative name
    with no suffix, outside [final_images], and no directory is created for
    it. *)
Lemma raw_capture_is_outside_output_folder :
  fileops (booth_trace (booth_run [Capture] sim_booth)) = [Imwrite "photo_0.png" true]
  /\ raw_name 0 = "photo_0.png"
  /\ String.prefix (output_folder ++ "/") "photo_0.png" = false.
Proof. repeat split; reflexivity. Qed.

(** C10, the code at the failing input.  The second capture resets
    [last_no_bg] and [last_composited] for the new photo but leaves the
    background selector of the first capture open, and its three thumbnails
    still hold the cutout of [photo_0.png].  A click on the first of them
    composites that cutout, and Save Final writes the result under the
    session id of the second capture: the file derived from [photo_0.png] is
    [photo_2_composited.png], which is not [photo_1<suffix>.png] for any
    suffix. *)
Theorem stale_composite_saved_under_new_index :
  let b2 := booth_run [Capture; ClickRemoveBackground; Capture] sim_booth in
  let b := booth_run [Capture; ClickRemoveBackground; Capture;
                      ClickBackground 0; ClickSaveFinal] sim_booth in
  (last_captured b2 = Some (raw_name 1)
   /\ save_session_id b2 = 2
   /\ last_no_bg b2 = None
   /\ last_composited b2 = Some None
   /\ exists buttons,
        bg_thumb_frame b2 = Some buttons
        /\ List.length buttons = 3
        /\ Forall (fun btn => source_of (no_bg_img btn) = raw_name 0) buttons)
  /\ exists img,
       fileops (booth_trace b)
       = [Imwrite "photo_0.png" true; Imwrite "photo_1.png" true;
          Makedirs "final_images" true;
          Save img "final_images/photo_2_composited.png"]
       /\ In (Save img "final_images/photo_2_composited.png") (fileops (booth_trace b))
       /\ source_of img = raw_name 0
       /\ forall suffix,
            "final_images/photo_2_composited.png"
            <> path_join output_folder (final_name 1 suffix).
Proof.
  split.
  - vm_compute. repeat split. eexists. repeat split. repeat constructor.
  - vm_compute. eexists. split; [reflexivity | split; [ | split]].
    + do 3 right. left. reflexivity.
    + reflexivity.
    + intros suffix H. discriminate H.
Qed.

(** * The further properties on concrete runs *)

(** Everything works, and the remote has no PhotoBooth folder yet. *)
Definition sim_no_folder : Sim :=
  mkSim ("final_images/photo_1_cutout.png" :: sim_resources)
        false false false false false [].

Definition sim_created_folder : DriveFile :=
  (folder_metadata ++ [("id", VStr "folder-1")])%list.

Lemma handle_is_kept_witness :
  connected_with (GoogleDrive 0) (g (fresh_uploader (connected_state sim_healthy)))
  /\ connected_with (GoogleDrive 0)
       (g (run sim_schedule (fresh_uploader (connected_state sim_healthy)))).
Proof.
  split; [split; reflexivity | ].
  exact (proj1 (handle_is_kept (GoogleDrive 0) sim_schedule
                  (fresh_uploader (connected_state sim_healthy))
                  (conj eq_refl eq_refl))).
Defined.

(** Three paths are queued, one of them already uploaded, when [stop] is
    called: thirty worker steps later the worker has exited and all three
    have been uploaded. *)
Lemma stop_drains_then_exits_witness :
  let u2 := step Stop (run sim_schedule (fresh_uploader (connected_state sim_healthy))) in
  3 * List.length (upload_queue u2) + 3 <= 30
  /\ upload_thread (run (repeat WorkerStep 30) u2) = Exited
  /\ uploads (trace (g (run (repeat WorkerStep 30) u2)))
     = ["photo_0.png"; "photo_1.png"; "photo_2.png"].
Proof.
  intros u2. split; [apply Nat.leb_le; reflexivity | ].
  refine (stop_drains_then_exits sim_healthy (Some (GoogleDrive 0)) true [] sim_schedule 30
            _).
  apply Nat.leb_le; reflexivity.
Defined.

Lemma link_only_after_upload_and_permission_witness :
  let r := upload_and_get_link sim_path (connected_state sim_healthy) in
  snd r = Ok (VStr "https://drive.example/file-1")
  /\ VStr "https://drive.example/file-1" <> VNone
  /\ exists t d folder w0 w1 w2 w3 w4 created content uploaded shared,
       trace (fst r)
       = (t ++ [EvCall (C_SetContentFile sim_path) None;
                EvCall (C_Upload content) None;
                EvCall (C_InsertPermission public_permission) None])%list
       /\ sdk_CreateFile d (file_metadata sim_path folder) w0 = (w1, Ok created)
       /\ sdk_SetContentFile sim_path created w1 = (w2, Ok content)
       /\ sdk_Upload content w2 = (w3, Ok uploaded)
       /\ sdk_InsertPermission public_permission uploaded w3 = (w4, Ok shared)
       /\ world (fst r) = w4
       /\ dict_get shared "alternateLink" = Some (VStr "https://drive.example/file-1").
Proof.
  split; [reflexivity | split; [discriminate | ]].
  apply (link_only_after_upload_and_permission
           (connected_state sim_healthy)
           (fst (upload_and_get_link sim_path (connected_state sim_healthy)))
           sim_path (VStr "https://drive.example/file-1"));
    [reflexivity | discriminate].
Defined.

(** The folder is created with the id the remote gives it and found by the
    next resolution. *)
Lemma folder_created_then_found_witness :
  connected_with (GoogleDrive 0) (connected_state sim_no_folder)
  /\ sdk_ListFile_GetList (GoogleDrive 0) folder_query sim_no_folder
     = (sim_no_folder, Ok [])
  /\ exists st1 st2,
       _get_or_create_folder (connected_state sim_no_folder) = (st1, Ok (VStr "folder-1"))
       /\ trace st1 = [EvCall (C_ListFile folder_query) None;
                       EvCall (C_CreateFile folder_metadata) None;
                       EvCall (C_Upload folder_metadata) None]
       /\ _get_or_create_folder st1 = (st2, Ok (VStr "folder-1"))
       /\ trace st2 = (trace st1 ++ [EvCall (C_ListFile folder_query) None])%list.
Proof.
  split; [split; reflexivity | split; [reflexivity | ]].
  exact (folder_created_then_found (connected_state sim_no_folder) (GoogleDrive 0)
           sim_no_folder sim_no_folder
           (sim_add_folder sim_created_folder sim_no_folder)
           (sim_add_folder sim_created_folder sim_no_folder)
           folder_metadata sim_created_folder [] (VStr "folder-1")
           (conj eq_refl eq_refl) eq_refl eq_refl eq_refl eq_refl eq_refl).
Defined.

Lemma uploaded_title_is_file_name_witness :
  slash_free "_cutout"
  /\ file_metadata "final_images/photo_1_cutout.png" (VStr "folder-0")
     = [("title", VStr "photo_1_cutout.png");
        ("parents", VList [VDict [("id", VStr "folder-0")]])].
Proof.
  split; [reflexivity | ].
  exact (proj1 (uploaded_title_is_file_name 1 "_cutout" (VStr "folder-0") eq_refl)).
Defined.

(** One press on a booth at rest: six timers later the photo is taken. *)
Lemma countdown_takes_one_photo_witness :
  pending (mkClock 0 [] false [] 0) = []
  /\ Nat.iter 6 fire (start_countdown false (mkClock 0 [] false [] 0), sim_booth)
     = (mkClock 0 ["5"; "4"; "3"; "2"; "1"; "📸"] false [] 5500,
        booth_run [Capture] sim_booth).
Proof.
  split; [reflexivity | ].
  exact (proj1 (proj2 (proj2 (countdown_takes_one_photo (mkClock 0 [] false [] 0) sim_booth)
                         eq_refl))).
Defined.

(** Remove Background after a capture writes no file. *)
Lemma only_capture_moves_the_counters_witness :
  ClickRemoveBackground <> Capture
  /\ writes_files ClickRemoveBackground = false
  /\ fileops (booth_trace (booth_step ClickRemoveBackground (booth_run [Capture] sim_booth)))
     = fileops (booth_trace (booth_run [Capture] sim_booth)).
Proof.
  assert (H : ClickRemoveBackground <> Capture) by discriminate.
  split; [exact H | split; [reflexivity | ]].
  exact (proj2 (proj2 (proj2 (only_capture_moves_the_counters ClickRemoveBackground
                                (booth_run [Capture] sim_booth) H))) eq_refl).
Defined.
